(** * The task store of the task-management API

    A shallow embedding of [services/task.service.ts] (the in-memory task
    store), of the model it works on ([models/task.model.ts]) and of the
    JavaScript built-ins the store calls, followed by the properties the
    specification states about the store.

    Conventions of the embedding:
    - the module-level [let tasks: Task[]] is threaded explicitly: an
      operation that assigns to it returns the new array next to its result;
    - the two things the store takes from its environment are arguments of the
      operation that reads them: the identifier [uuidv4()] returns, and the
      instant each [new Date()] returns (a [Date] is its time value, the
      milliseconds since the epoch, a [Z]);
    - in the store, a JavaScript number that is an array index, a page or a
      limit is a [Z]; the numbers the controller makes of query strings,
      [NaN] and the rounding beyond 2^53 among them, are modelled with the
      controller;
    - a string is a sequence of 8-bit characters: the strings whose UTF-16
      code units are all below 256, the Latin-1 range.  On these strings
      [toLowerCase] works character by character, and strings with a code
      unit from 256 on are outside the model. *)

From stdpp Require Import base numbers option list strings.
From Stdlib Require Import ZArith Lia.
From Stdlib Require Import Ascii.

Open Scope Z_scope.

(** ** JavaScript built-ins used by the store *)

Module JS.

(** [ToBoolean] on a string: only the empty string is falsy. *)
Definition truthy (s : string) : bool :=
  match s with
  | EmptyString => false
  | String _ _ => true
  end.

(** One character of [String.prototype.toLowerCase].  Among the code units
    below 256 the capitals are [A]..[Z] (65..90) and the accented capitals
    U+00C0..U+00D6 and U+00D8..U+00DE (192..214 and 216..222; 215 is the
    multiplication sign); each has its small letter 32 places further on.
    The other characters stay, and no mapping here depends on the
    neighbouring characters. *)
Definition lower_char (c : ascii) : ascii :=
  let n := nat_of_ascii c in
  if bool_decide ((65 ≤ n ≤ 90) ∨ (192 ≤ n ≤ 214) ∨ (216 ≤ n ≤ 222))%nat
  then ascii_of_nat (n + 32) else c.

Fixpoint toLowerCase (s : string) : string :=
  match s with
  | EmptyString => EmptyString
  | String c s' => String (lower_char c) (toLowerCase s')
  end.

(** [s.startsWith(t)], the test [includes] repeats at every position. *)
Fixpoint startsWith (s t : string) {struct t} : bool :=
  match t, s with
  | EmptyString, _ => true
  | String _ _, EmptyString => false
  | String b t', String a s' => bool_decide (a = b) && startsWith s' t'
  end.

(** [s.includes(t)]: [t] occurs in [s] at some position, searched from 0. *)
Fixpoint includes (s t : string) : bool :=
  startsWith s t ||
  match s with
  | EmptyString => false
  | String _ s' => includes s' t
  end.

(** The clamping [Array.prototype.slice] applies to each of its two
    arguments: a negative index counts from the end of the array, and the
    result is kept within [0, len]. *)
Definition relative_index (len k : Z) : Z :=
  if k <? 0 then Z.max (len + k) 0 else Z.min k len.

(** [l.slice(start, end)]: [max (final - from) 0] elements from [from]. *)
Definition slice {A} (l : list A) (start end_ : Z) : list A :=
  let len := Z.of_nat (length l) in
  let from := relative_index len start in
  let final := relative_index len end_ in
  take (Z.to_nat (final - from)) (drop (Z.to_nat from) l).

(** [l.find(p)]: the first element that satisfies [p], or [undefined]. *)
Definition find {A} (P : A → Prop) `{∀ x, Decision (P x)} (l : list A)
  : option A :=
  snd <$> list_find P l.

(** [l.findIndex(p)]: the index of that element, or [-1]. *)
Definition findIndex {A} (P : A → Prop) `{∀ x, Decision (P x)} (l : list A)
  : Z :=
  match list_find P l with
  | Some (i, _) => Z.of_nat i
  | None => -1
  end.

End JS.

(** ** The model: [models/task.model.ts] *)

Inductive TaskStatus := PENDING | IN_PROGRESS | COMPLETED.

#[global] Instance TaskStatus_eq_dec : EqDecision TaskStatus.
Proof. solve_decision. Defined.

(** The string value of each member of the enum. *)
Definition TaskStatus_value (s : TaskStatus) : string :=
  match s with
  | PENDING => "PENDING"
  | IN_PROGRESS => "IN_PROGRESS"
  | COMPLETED => "COMPLETED"
  end.

Record Task := mkTask {
  id : string;
  title : string;
  description : string;
  status : TaskStatus;
  createdAt : Z;
  updatedAt : Z
}.

#[global] Instance Task_eq_dec : EqDecision Task.
Proof. solve_decision. Defined.

(** [Partial<Task>]: every key of [Task], each one present or absent. *)
Record PartialTask := mkPartial {
  p_id : option string;
  p_title : option string;
  p_description : option string;
  p_status : option TaskStatus;
  p_createdAt : option Z;
  p_updatedAt : option Z
}.

(** The argument of [create]. *)
Record CreateData := mkCreateData {
  c_title : string;
  c_description : string
}.

(** [Joi.string().min(lo).max(hi)] on a key that may be absent. *)
Definition opt_length_between (lo hi : nat) (o : option string) : bool :=
  match o with
  | None => true
  | Some s => bool_decide (lo ≤ String.length s ≤ hi)%nat
  end.

(** [createTaskSchema]: both keys required, with their length bounds. *)
Definition createTaskSchema (d : CreateData) : bool :=
  bool_decide (3 ≤ String.length (c_title d) ≤ 50)%nat &&
  bool_decide (3 ≤ String.length (c_description d) ≤ 255)%nat.

(** The keys [updateTaskSchema] knows: a Joi object refuses the others. *)
Definition only_schema_keys (d : PartialTask) : Prop :=
  p_id d = None ∧ p_createdAt d = None ∧ p_updatedAt d = None.

#[global] Instance only_schema_keys_dec d : Decision (only_schema_keys d).
Proof. unfold only_schema_keys. apply _. Defined.

(** [updateTaskSchema]: the three optional keys with their bounds, no other
    key, and [.min(1)]: at least one key. *)
Definition updateTaskSchema (d : PartialTask) : bool :=
  bool_decide (only_schema_keys d) &&
  opt_length_between 3 50 (p_title d) &&
  opt_length_between 3 255 (p_description d) &&
  (bool_decide (is_Some (p_title d)) || bool_decide (is_Some (p_description d))
   || bool_decide (is_Some (p_status d))).

(** ** The store: [services/task.service.ts] *)

Module TaskService.

(** What [getAll] returns. *)
Record Listing := mkListing {
  total : nat;
  page : Z;
  limit : Z;
  data : list Task
}.

(** [if (status) filteredTasks = filteredTasks.filter(task => task.status === status)] *)
Definition filter_status (status_ : option TaskStatus) (ts : list Task)
  : list Task :=
  match status_ with
  | Some s =>
      if JS.truthy (TaskStatus_value s)
      then filter (λ task, task.(status) = s) ts
      else ts
  | None => ts
  end.

(** [if (title) filteredTasks = filteredTasks.filter(task =>
      task.title.toLowerCase().includes(title.toLowerCase()))] *)
Definition filter_title (title_ : option string) (ts : list Task)
  : list Task :=
  match title_ with
  | Some t =>
      if JS.truthy t
      then filter (λ task : Task,
             JS.includes (JS.toLowerCase task.(title)) (JS.toLowerCase t) = true) ts
      else ts
  | None => ts
  end.

(** [getAll(status?, title?, page = 1, limit = 10)]: an absent [page] or
    [limit] takes its default. *)
Definition getAll (status_ : option TaskStatus) (title_ : option string)
    (page_ limit_ : option Z) (tasks : list Task) : Listing :=
  let page := default 1 page_ in
  let limit := default 10 limit_ in
  let filteredTasks := filter_title title_ (filter_status status_ tasks) in
  let startIndex := (page - 1) * limit in
  let endIndex := page * limit in
  let paginatedTasks := JS.slice filteredTasks startIndex endIndex in
  {| total := length filteredTasks;
     page := page;
     limit := limit;
     data := paginatedTasks |}.

(** [getById(id)]: [tasks.find(task => task.id === id)]. *)
Definition getById (i : string) (tasks : list Task) : option Task :=
  JS.find (λ task, task.(id) = i) tasks.

(** [create(data)]: [uuid] is what [uuidv4()] returns, [now1] and [now2]
    what the two [new Date()] of the object literal return, in the order
    they are evaluated. The result is the new task and the array after
    [tasks.push(newTask)]. *)
Definition create (uuid : string) (now1 now2 : Z) (d : CreateData)
    (tasks : list Task) : Task * list Task :=
  let newTask :=
    {| id := uuid;
       title := c_title d;
       description := c_description d;
       status := PENDING;
       createdAt := now1;
       updatedAt := now2 |} in
  (newTask, tasks ++ [newTask]).

(** [{ ...old, ...data }]: a key present in [data] replaces that of [old]. *)
Definition spread (old : Task) (d : PartialTask) : Task :=
  {| id := default old.(id) (p_id d);
     title := default old.(title) (p_title d);
     description := default old.(description) (p_description d);
     status := default old.(status) (p_status d);
     createdAt := default old.(createdAt) (p_createdAt d);
     updatedAt := default old.(updatedAt) (p_updatedAt d) |}.

(** [{ ...old, ...data, updatedAt: now }] *)
Definition merge (old : Task) (d : PartialTask) (now : Z) : Task :=
  let m := spread old d in
  {| id := m.(id); title := m.(title); description := m.(description);
     status := m.(status); createdAt := m.(createdAt); updatedAt := now |}.

(** [update(id, data)]: [now] is what [new Date()] returns. [null] is
    [None]. The array is assigned at [taskIndex] only when [findIndex]
    found the id, so the index is that of an element; the last branch is
    never taken (see [update_index_in_range]). *)
Definition update (i : string) (d : PartialTask) (now : Z)
    (tasks : list Task) : option Task * list Task :=
  let taskIndex := JS.findIndex (λ task, task.(id) = i) tasks in
  if taskIndex =? -1 then (None, tasks)
  else
    match tasks !! Z.to_nat taskIndex with
    | Some old =>
        let tasks' := <[Z.to_nat taskIndex := merge old d now]> tasks in
        (tasks' !! Z.to_nat taskIndex, tasks')
    | None => (None, tasks)
    end.

(** [remove(id)]: the array without the tasks of that id, and whether it
    became shorter. *)
Definition remove (i : string) (tasks : list Task) : bool * list Task :=
  let initialLength := length tasks in
  let tasks' := filter (λ task, task.(id) ≠ i) tasks in
  (bool_decide (length tasks' < initialLength)%nat, tasks').

End TaskService.

(** Closed side conditions are decided by evaluation. *)
Ltac by_evaluation := apply (bool_decide_unpack _); vm_compute; exact I.

(** ** Facts about the built-ins *)

Section JSFacts.

Import JS.

Lemma truthy_false (s : string) : truthy s = false ↔ s = "".
Proof. destruct s; simpl; split; congruence. Qed.

Lemma truthy_TaskStatus_value (s : TaskStatus) :
  truthy (TaskStatus_value s) = true.
Proof. by destruct s. Qed.

Lemma startsWith_spec (s t : string) :
  startsWith s t = true ↔ ∃ post, s = t +:+ post.
Proof.
  revert s. induction t as [|b t IH]; intros s; simpl.
  - split; [intros _; by exists s | done].
  - destruct s as [|a s].
    + split; [done | intros [post Hp]; discriminate].
    + rewrite andb_true_iff, bool_decide_eq_true, IH. split.
      * intros [-> [post ->]]. by exists post.
      * intros [post Hp]. simpl in Hp. injection Hp as -> ->. eauto.
Qed.

Lemma includes_spec (s t : string) :
  includes s t = true ↔ ∃ pre post, s = pre +:+ t +:+ post.
Proof.
  induction s as [|a s IH]; simpl.
  - rewrite orb_false_r, startsWith_spec. split.
    + intros [post Hp]. by exists "", post.
    + intros [pre [post Hp]]. destruct pre; [by exists post | discriminate].
  - rewrite orb_true_iff, startsWith_spec, IH. split.
    + intros [[post Hp] | [pre [post Hp]]].
      * by exists "", post.
      * exists (String a pre), post. simpl. by rewrite Hp.
    + intros [pre [post Hp]]. destruct pre as [|c pre]; simpl in Hp.
      * left. by exists post.
      * right. injection Hp as _ ->. by exists pre, post.
Qed.

Lemma includes_empty (s : string) : includes s "" = true.
Proof. apply includes_spec. by exists "", s. Qed.

Lemma toLowerCase_idemp (s : string) :
  toLowerCase (toLowerCase s) = toLowerCase s.
Proof.
  induction s as [|c s IH]; simpl; [done|]. f_equal; [|done].
  clear. unfold lower_char. cbv zeta.
  pose proof (nat_ascii_bounded c) as Hb.
  destruct (decide ((65 ≤ nat_of_ascii c ≤ 90) ∨ (192 ≤ nat_of_ascii c ≤ 214)
                    ∨ (216 ≤ nat_of_ascii c ≤ 222))%nat) as [Hc|Hc].
  - rewrite (bool_decide_eq_true_2 _ Hc).
    rewrite nat_ascii_embedding by lia.
    rewrite bool_decide_eq_false_2 by lia. done.
  - by rewrite !(bool_decide_eq_false_2 _ Hc).
Qed.

(** *** [slice] *)

Lemma slice_sublist {A} (l : list A) (a b : Z) : slice l a b `sublist_of` l.
Proof.
  unfold slice. etrans; [apply sublist_take | apply sublist_drop].
Qed.

(** With indices that are not negative and in order, [slice] is the
    interval [a, b) of the positions of the array. *)
Lemma slice_interval {A} (l : list A) (a b : Z) :
  0 ≤ a → a ≤ b →
  slice l a b = take (Z.to_nat (b - a)) (drop (Z.to_nat a) l).
Proof.
  intros Ha Hb. unfold slice, relative_index.
  destruct (Z.ltb_spec a 0); [lia|]. destruct (Z.ltb_spec b 0); [lia|].
  destruct (decide (Z.of_nat (length l) ≤ a)) as [Hl|Hl].
  - rewrite !drop_ge by lia. by rewrite !take_nil.
  - rewrite (Z.min_l a) by lia.
    destruct (decide (b ≤ Z.of_nat (length l))).
    + by rewrite Z.min_l by lia.
    + rewrite Z.min_r by lia.
      rewrite !take_ge; [done | rewrite length_drop; lia ..].
Qed.

Lemma slice_past_end {A} (l : list A) (a b : Z) :
  Z.of_nat (length l) ≤ a → slice l a b = [].
Proof.
  intros Ha. unfold slice, relative_index.
  destruct (Z.ltb_spec a 0); [lia|].
  rewrite (Z.min_r a) by lia. rewrite drop_ge by lia. apply take_nil.
Qed.

Lemma slice_end_0 {A} (l : list A) (a : Z) : slice l a 0 = [].
Proof.
  unfold slice, relative_index. simpl.
  replace (Z.to_nat _) with 0%nat; [done|].
  destruct (Z.ltb_spec a 0); lia.
Qed.

(** With two negative indices, both count from the end of the array. *)
Lemma slice_from_end {A} (l : list A) (a b : Z) :
  a < 0 → b < 0 →
  let len := Z.of_nat (length l) in
  slice l a b =
    take (Z.to_nat (Z.max (len + b) 0 - Z.max (len + a) 0))
         (drop (Z.to_nat (Z.max (len + a) 0)) l).
Proof.
  intros Ha Hb. unfold slice, relative_index.
  destruct (Z.ltb_spec a 0); [|lia]. destruct (Z.ltb_spec b 0); [|lia]. done.
Qed.

(** *** [find] and [findIndex] *)

Context {A : Type} (P : A → Prop) `{∀ x, Decision (P x)}.

Lemma find_Some (l : list A) (x : A) :
  find P l = Some x ↔
  ∃ i : nat, l !! i = Some x ∧ P x ∧ ∀ j y, l !! j = Some y → (j < i)%nat → ¬ P y.
Proof.
  unfold find. rewrite fmap_Some. split.
  - intros [[i y] [Hf ->]]. apply list_find_Some in Hf. eauto.
  - intros [i Hi]. exists (i, x). split; [|done]. by apply list_find_Some.
Qed.

Lemma find_None (l : list A) : find P l = None ↔ Forall (λ x, ¬ P x) l.
Proof. unfold find. rewrite fmap_None. apply list_find_None. Qed.

Lemma findIndex_found (l : list A) (i : Z) :
  findIndex P l = i → i ≠ -1 →
  ∃ x, l !! Z.to_nat i = Some x ∧ P x ∧ 0 ≤ i < Z.of_nat (length l) ∧
       ∀ j y, l !! j = Some y → (j < Z.to_nat i)%nat → ¬ P y.
Proof.
  unfold findIndex. destruct (list_find P l) as [[n x]|] eqn:Hf; [|congruence].
  intros <- _. apply list_find_Some in Hf as (Hl & HP & Hm).
  exists x. rewrite Nat2Z.id. repeat split; try done; [lia|].
  apply lookup_lt_Some in Hl. lia.
Qed.

Lemma findIndex_missing (l : list A) :
  findIndex P l = -1 ↔ Forall (λ x, ¬ P x) l.
Proof.
  unfold findIndex. rewrite <- list_find_None.
  destruct (list_find P l) as [[n x]|] eqn:Hf; split; try done; intros; first [lia | congruence].
Qed.

End JSFacts.

(** ** Sequences of store operations *)

Import TaskService.

(** The identifiers of the stored tasks, in the order of the array. *)
Definition ids (tasks : list Task) : list string := id <$> tasks.

(** One call of the store, with what the call reads from its environment. *)
Inductive Op :=
  | OpCreate (uuid : string) (now1 now2 : Z) (d : CreateData)
  | OpGetById (i : string)
  | OpGetAll (status_ : option TaskStatus) (title_ : option string)
             (page_ limit_ : option Z)
  | OpUpdate (i : string) (d : PartialTask) (now : Z)
  | OpRemove (i : string).

(** The array after the call: [getById] and [getAll] only read it. *)
Definition step (op : Op) (tasks : list Task) : list Task :=
  match op with
  | OpCreate uuid now1 now2 d => (create uuid now1 now2 d tasks).2
  | OpGetById _ => tasks
  | OpGetAll _ _ _ _ => tasks
  | OpUpdate i d now => (update i d now tasks).2
  | OpRemove i => (remove i tasks).2
  end.

Fixpoint run (ops : list Op) (tasks : list Task) : list Task :=
  match ops with
  | [] => tasks
  | op :: ops' => run ops' (step op tasks)
  end.

(** The store starts empty: [let tasks: Task[] = []]. *)
Definition initial : list Task := [].

(** *** What the store relies on *)

(** [uuidv4()] never returns the identifier of a stored task. *)
Fixpoint uuids_fresh (ops : list Op) (tasks : list Task) : Prop :=
  match ops with
  | [] => True
  | op :: ops' =>
      match op with
      | OpCreate uuid _ _ _ => uuid ∉ ids tasks
      | _ => True
      end ∧ uuids_fresh ops' (step op tasks)
  end.

(** The body of an update went through [validate(updateTaskSchema)], which
    lets the keys [title], [description] and [status] through and no other. *)
Definition validated (op : Op) : Prop :=
  match op with
  | OpUpdate _ d _ => only_schema_keys d
  | _ => True
  end.

(** Less than the schema: the body of an update has no [id] key, or no
    [createdAt] key. *)
Definition keeps_id (op : Op) : Prop :=
  match op with
  | OpUpdate _ d _ => p_id d = None
  | _ => True
  end.

Definition keeps_createdAt (op : Op) : Prop :=
  match op with
  | OpUpdate _ d _ => p_createdAt d = None
  | _ => True
  end.

(** The instants [new Date()] returns never decrease, from [clock] on. *)
Fixpoint clock_monotone (clock : Z) (ops : list Op) : Prop :=
  match ops with
  | [] => True
  | OpCreate _ now1 now2 _ :: ops' =>
      clock ≤ now1 ∧ now1 ≤ now2 ∧ clock_monotone now2 ops'
  | OpUpdate _ _ now :: ops' => clock ≤ now ∧ clock_monotone now ops'
  | _ :: ops' => clock_monotone clock ops'
  end.

(** No call changes the task of identifier [i]: no update and no removal
    names it. *)
Definition leaves_alone (i : string) (op : Op) : Prop :=
  match op with
  | OpUpdate j _ _ => j ≠ i
  | OpRemove j => j ≠ i
  | _ => True
  end.

(** *** In front of the store: the routes *)

(** A request of [routes/task.routes.ts], with its decoded body or query. *)
Inductive Request :=
  | POST_tasks (body : CreateData)
  | GET_tasks (status_ : option TaskStatus) (title_ : option string)
              (page_ limit_ : option Z)
  | GET_task (i : string)
  | PUT_task (i : string) (body : PartialTask)
  | DELETE_task (i : string).

(** What the handling of one request reads from its environment. *)
Record Env := mkEnv {
  env_uuid : string;
  env_now1 : Z;
  env_now2 : Z
}.

(** The call of the store a request ends in, if any: [POST] and [PUT] go
    through [validate(schema)] first, which answers 400 and calls nothing when
    the body does not fit; the controller then hands the title and the
    description to [create], and the whole body to [update]. *)
Definition store_call (r : Request) (e : Env) : option Op :=
  match r with
  | POST_tasks body =>
      if createTaskSchema body
      then Some (OpCreate (env_uuid e) (env_now1 e) (env_now2 e)
                   (mkCreateData (c_title body) (c_description body)))
      else None
  | GET_tasks status_ title_ page_ limit_ =>
      Some (OpGetAll status_ title_ page_ limit_)
  | GET_task i => Some (OpGetById i)
  | PUT_task i body =>
      if updateTaskSchema body then Some (OpUpdate i body (env_now1 e)) else None
  | DELETE_task i => Some (OpRemove i)
  end.

(** The calls of the store a sequence of requests ends in. *)
Definition served (rs : list (Request * Env)) : list Op :=
  omap (λ re, store_call re.1 re.2) rs.

(** *** The identifier a task was created with *)

(** The store next to a record of its history: each task is paired with the
    identifier [create] gave it. [update] assigns at an index of the array,
    so the task at an index after the call is the task at that index before;
    [remove] drops the pairs of the tasks it drops. *)
Definition born_step (op : Op) (g : list (string * Task))
  : list (string * Task) :=
  match op with
  | OpCreate uuid now1 now2 d => g ++ [(uuid, (create uuid now1 now2 d g.*2).1)]
  | OpGetById _ => g
  | OpGetAll _ _ _ _ => g
  | OpUpdate i d now => zip g.*1 (update i d now g.*2).2
  | OpRemove i => filter (λ b, b.2.(id) ≠ i) g
  end.

Fixpoint born_run (ops : list Op) (g : list (string * Task))
  : list (string * Task) :=
  match ops with
  | [] => g
  | op :: ops' => born_run ops' (born_step op g)
  end.

(** ** The words of the specification *)

(** Two characters are the same letter when they are the same character, or
    one is a capital and the other the small letter for it.  The capitals
    are [A]..[Z] and the accented capitals of Latin-1. *)
Definition is_capital (c : ascii) : Prop :=
  let n := nat_of_ascii c in
  ((65 ≤ n ≤ 90) ∨ (192 ≤ n ≤ 214) ∨ (216 ≤ n ≤ 222))%nat.

Definition small_of (c : ascii) : ascii := ascii_of_nat (nat_of_ascii c + 32).

Definition same_letter (a b : ascii) : Prop :=
  a = b ∨ (is_capital a ∧ b = small_of a) ∨ (is_capital b ∧ a = small_of b).

(** Two strings of the same length with the same letters, place by place. *)
Inductive same_letters : string → string → Prop :=
  | same_letters_nil : same_letters "" ""
  | same_letters_cons a b s t :
      same_letter a b → same_letters s t →
      same_letters (String a s) (String b t).

(** [s] contains [t] case-insensitively: some stretch of [s] has the letters
    of [t], whatever the case of either. *)
Definition contains_ci (s t : string) : Prop :=
  ∃ pre mid post, s = pre +:+ mid +:+ post ∧ same_letters mid t.

Lemma lower_char_same_letter (a b : ascii) :
  JS.lower_char a = JS.lower_char b ↔ same_letter a b.
Proof.
  unfold JS.lower_char, same_letter, is_capital, small_of.
  pose proof (nat_ascii_bounded a) as Ha. pose proof (nat_ascii_bounded b) as Hb.
  assert (Hinj : ∀ n m, (n < 256)%nat → (m < 256)%nat →
            ascii_of_nat n = ascii_of_nat m → n = m).
  { intros n m Hn Hm Heq. apply (f_equal nat_of_ascii) in Heq.
    by rewrite !nat_ascii_embedding in Heq. }
  assert (Hnat : ∀ c (n : nat), (n < 256)%nat →
            c = ascii_of_nat n → nat_of_ascii c = n).
  { intros c n Hn ->. by apply nat_ascii_embedding. }
  assert (Heq : nat_of_ascii a = nat_of_ascii b → a = b).
  { intros Hab. rewrite <- (ascii_nat_embedding a), <- (ascii_nat_embedding b).
    by rewrite Hab. }
  repeat case_bool_decide; split.
  - intros Hl. apply Hinj in Hl; [|lia ..]. left. apply Heq. lia.
  - intros [->|[[_ Hs]|[_ Hs]]]; [done | ..];
      apply Hnat in Hs; lia.
  - intros <-. right. by left.
  - by intros [->|[[_ Hs]|[? _]]].
  - intros ->. by do 2 right.
  - by intros [->|[[? _]|[_ Hs]]].
  - intros ->. by left.
  - by intros [->|[[? _]|[? _]]].
Qed.

Lemma toLowerCase_same_letters (s t : string) :
  JS.toLowerCase s = JS.toLowerCase t ↔ same_letters s t.
Proof.
  split.
  - revert t. induction s as [|a s IH]; intros [|b t] Heq; simplify_eq/=.
    + constructor.
    + constructor; [by apply lower_char_same_letter | by apply IH].
  - induction 1 as [|a b s t Hab _ IH]; simpl; [done|].
    apply lower_char_same_letter in Hab. by rewrite Hab, IH.
Qed.

Lemma toLowerCase_app (s t : string) :
  JS.toLowerCase (s +:+ t) = JS.toLowerCase s +:+ JS.toLowerCase t.
Proof. induction s as [|a s IH]; simpl; [done|]. by rewrite IH. Qed.

Lemma toLowerCase_app_inv (s x y : string) :
  JS.toLowerCase s = x +:+ y →
  ∃ s1 s2, s = s1 +:+ s2 ∧ JS.toLowerCase s1 = x ∧ JS.toLowerCase s2 = y.
Proof.
  revert s. induction x as [|c x IH]; intros s Heq; simpl in Heq.
  - by exists "", s.
  - destruct s as [|a s]; simpl in Heq; [discriminate|].
    injection Heq as <- Heq.
    destruct (IH s Heq) as (s1 & s2 & -> & <- & <-).
    by exists (String a s1), s2.
Qed.

(** What the store computes, [title.toLowerCase().includes(t.toLowerCase())],
    decides it. *)
Lemma includes_contains_ci (s t : string) :
  JS.includes (JS.toLowerCase s) (JS.toLowerCase t) = true ↔ contains_ci s t.
Proof.
  rewrite includes_spec. unfold contains_ci. split.
  - intros (pre & post & Heq).
    apply toLowerCase_app_inv in Heq as (s1 & s' & -> & <- & Heq).
    apply toLowerCase_app_inv in Heq as (s2 & s3 & -> & Hmid & <-).
    exists s1, s2, s3. split; [done|]. by apply toLowerCase_same_letters.
  - intros (pre & mid & post & -> & Hmid%toLowerCase_same_letters).
    exists (JS.toLowerCase pre), (JS.toLowerCase post).
    by rewrite !toLowerCase_app, Hmid.
Qed.

#[global] Instance contains_ci_dec s t : Decision (contains_ci s t).
Proof.
  refine (cast_if (decide (JS.includes (JS.toLowerCase s) (JS.toLowerCase t) = true)));
    by rewrite <- includes_contains_ci.
Defined.

(** Exact match on the status, when one is asked for. *)
Definition status_matches (status_ : option TaskStatus) (task : Task) : Prop :=
  match status_ with
  | Some s => task.(status) = s
  | None => True
  end.

(** Case-insensitive substring match on the title, when one is asked for. *)
Definition title_matches (title_ : option string) (task : Task) : Prop :=
  match title_ with
  | Some t => contains_ci task.(title) t
  | None => True
  end.

#[global] Instance status_matches_dec o t : Decision (status_matches o t).
Proof. destruct o; simpl; apply _. Defined.

#[global] Instance title_matches_dec o t : Decision (title_matches o t).
Proof. destruct o; simpl; apply _. Defined.

(** The filtered set: the tasks of the collection that match the status, then
    those of them that match the title, in the order of the collection. *)
Definition filtered_set (status_ : option TaskStatus) (title_ : option string)
    (tasks : list Task) : list Task :=
  filter (title_matches title_) (filter (status_matches status_) tasks).

(** A page is in range when it is numbered from 1 and starts before the end
    of the [n] tasks of the filtered set; any other page is out of range. *)
Definition page_in_range (page limit : Z) (n : nat) : Prop :=
  1 ≤ page ∧ (page - 1) * limit < Z.of_nat n.

(** The [data] of the pages 1, 2, ..., [n], one after the other. *)
Definition pages (status_ : option TaskStatus) (title_ : option string)
    (limit_ : option Z) (n : nat) (tasks : list Task) : list Task :=
  concat ((λ k : nat, data (getAll status_ title_ (Some (Z.of_nat k)) limit_ tasks))
            <$> seq 1 n).

(** ** Sample data *)

Definition milk : Task :=
  mkTask "a1" "Buy milk" "2% milk" PENDING 1000 1000.
Definition report : Task :=
  mkTask "b2" "Write report" "Q3 report" COMPLETED 2000 2500.
Definition project : Task :=
  mkTask "c3" "Plan PROJECT" "kick-off" IN_PROGRESS 3000 3000.
Definition review : Task :=
  mkTask "d4" "Project review" "slides" COMPLETED 4000 4100.
Definition taxes : Task :=
  mkTask "e5" "File taxes" "forms" PENDING 5000 5000.

Definition sample : list Task := [milk; report; project; review; taxes].

(** ** The filters of [getAll] *)

Section Filters.

Lemma filter_all {A} (P : A → Prop) `{∀ x, Decision (P x)} (l : list A) :
  Forall P l → filter P l = l.
Proof.
  induction 1 as [|x l HP _ IH]; [done|].
  rewrite filter_cons_True by done. by rewrite IH.
Qed.

Lemma filter_status_matches (status_ : option TaskStatus) (ts : list Task) :
  filter_status status_ ts = filter (status_matches status_) ts.
Proof.
  destruct status_ as [s|]; simpl.
  - by rewrite truthy_TaskStatus_value.
  - symmetry. apply filter_all, Forall_forall. done.
Qed.

(** An empty [title] is falsy and is not filtered on; every title contains
    the empty string, so the result is that of the filter all the same. *)
Lemma filter_title_matches (title_ : option string) (ts : list Task) :
  filter_title title_ ts = filter (title_matches title_) ts.
Proof.
  destruct title_ as [t|]; simpl.
  - destruct (JS.truthy t) eqn:Ht.
    + apply list_filter_iff. intros task. apply includes_contains_ci.
    + apply truthy_false in Ht as ->. symmetry.
      apply filter_all, Forall_forall. intros task _.
      exists "", "", (title task). split; [done | constructor].
  - symmetry. apply filter_all, Forall_forall. done.
Qed.

Lemma getAll_filteredTasks status_ title_ (tasks : list Task) :
  filter_title title_ (filter_status status_ tasks)
  = filtered_set status_ title_ tasks.
Proof.
  unfold filtered_set. by rewrite filter_status_matches, filter_title_matches.
Qed.


Lemma filtered_set_sublist status_ title_ (tasks : list Task) :
  filtered_set status_ title_ tasks `sublist_of` tasks.
Proof.
  unfold filtered_set. etrans; apply sublist_filter.
Qed.

Lemma getAll_data status_ title_ page_ limit_ (tasks : list Task) :
  data (getAll status_ title_ page_ limit_ tasks)
  = JS.slice (filtered_set status_ title_ tasks)
      ((default 1 page_ - 1) * default 10 limit_)
      (default 1 page_ * default 10 limit_).
Proof. unfold getAll; simpl. by rewrite getAll_filteredTasks. Qed.

(** The pages 1 to [n] of a listing with a positive limit hold the first
    [n * limit] tasks of the filtered set. *)
Lemma pages_take status_ title_ limit_ (n : nat) (tasks : list Task) :
  0 < default 10 limit_ →
  pages status_ title_ limit_ n tasks
  = take (n * Z.to_nat (default 10 limit_))
      (filtered_set status_ title_ tasks).
Proof.
  intros HL. unfold pages. induction n as [|n IH]; [done|].
  rewrite seq_S, fmap_app, concat_app, IH.
  rewrite list_fmap_singleton. cbn [concat]. rewrite app_nil_r, getAll_data.
  change (default 1 (Some ?p)) with p.
  generalize dependent (default 10 limit_). intros L HL IH.
  replace ((Z.of_nat (1 + n) - 1) * L) with (Z.of_nat n * L) by lia.
  replace (Z.of_nat (1 + n) * L) with (Z.of_nat n * L + L) by lia.
  rewrite slice_interval by nia.
  replace (Z.to_nat (_ - _)) with (Z.to_nat L) by lia.
  replace (Z.to_nat (_ * _)) with (n * Z.to_nat L)%nat by nia.
  rewrite take_take_drop. f_equal. lia.
Qed.

End Filters.

(** ** Listing: filters and pagination *)

Lemma getAll_defaults status_ title_ (tasks : list Task) :
  getAll status_ title_ None None tasks
  = getAll status_ title_ (Some 1) (Some 10) tasks.
Proof. reflexivity. Qed.

Lemma getAll_data_Some status_ title_ (p L : Z) (tasks : list Task) :
  data (getAll status_ title_ (Some p) (Some L) tasks)
  = JS.slice (filtered_set status_ title_ tasks) ((p - 1) * L) (p * L).
Proof. apply getAll_data. Qed.

Lemma pages_limit_0 status_ title_ (n : nat) (tasks : list Task) :
  pages status_ title_ (Some 0) n tasks = [].
Proof.
  unfold pages. induction n as [|n IH]; [done|].
  rewrite seq_S, fmap_app, concat_app, IH, list_fmap_singleton.
  cbn [concat app]. rewrite app_nil_r, getAll_data_Some.
  rewrite Z.mul_0_r. apply slice_end_0.
Qed.

(** With a negative limit the first page already loses the end of the
    filtered set, and the later pages are empty. *)
Example pages_negative_limit :
  ids (pages None None (Some (-1)) 7 sample) = ["a1"; "b2"; "c3"; "d4"].
Proof. reflexivity. Qed.

(** C1, as stated, fails: with [limit = 0], which the store accepts as it
    accepts every number, every page is empty, so that no number of pages
    gives back a filtered set that is not empty. *)
Lemma pagination_limit_0_counterexample :
  ¬ ∃ n : nat, pages None None (Some 0) n sample = filtered_set None None sample.
Proof. intros [n Hn]. rewrite pages_limit_0 in Hn. discriminate. Qed.

(** C1, amended: for every store state, every pair of optional filters and
    every fixed limit that is positive (given, or the default 10), the [data]
    of the pages 1, 2, ..., [n] one after the other are exactly the filtered
    set (status filter, then title filter), in the order of insertion, as
    soon as [n] pages cover its size; the filtered set is taken from the
    collection without reordering, and every later page is empty. *)
Theorem pagination_reconstruction status_ title_ limit_ (n : nat)
    (tasks : list Task) :
  0 < default 10 limit_ →
  (length (filtered_set status_ title_ tasks) ≤ n * Z.to_nat (default 10%Z limit_))%nat →
  pages status_ title_ limit_ n tasks = filtered_set status_ title_ tasks
  ∧ filtered_set status_ title_ tasks `sublist_of` tasks
  ∧ ∀ k : nat, (n < k)%nat →
      data (getAll status_ title_ (Some (Z.of_nat k)) limit_ tasks) = [].
Proof.
  intros HL Hn. split; [|split].
  - rewrite pages_take by done. by apply take_ge.
  - apply filtered_set_sublist.
  - intros k Hk. rewrite getAll_data. change (default 1 (Some ?p)) with p.
    apply slice_past_end. nia.
Qed.

Lemma pagination_reconstruction_witness :
  pages (Some COMPLETED) None (Some 1) 2 sample = [report; review].
Proof.
  apply (proj1 (pagination_reconstruction (Some COMPLETED) None (Some 1) 2 sample
                  ltac:(simpl; lia) ltac:(vm_compute; lia))).
Defined.



(** The title is matched whatever the case of either side, and an empty
    title filters nothing. *)
Example getAll_title_case :
  ids (data (getAll None (Some "PROJ") None None sample)) = ["c3"; "d4"]
  ∧ ids (data (getAll None (Some "") None None sample)) = ids sample
  ∧ total (getAll (Some COMPLETED) (Some "rE") (Some 7) (Some 1) sample) = 2%nat.
Proof. by vm_compute. Qed.

(** The accented capitals of Latin-1 are letters like the others: a task
    titled [École] (201 is the capital, 233 the small letter) is listed for
    [éc] and for [ÉCOLE]; the multiplication sign, 215, is not a capital. *)
Example getAll_title_accent :
  let ecole := mkTask "f6" (String "201" "cole") "Inscription" PENDING 0 0 in
  data (getAll None (Some (String "233" "c")) None None [ecole]) = [ecole]
  ∧ data (getAll None (Some (String "201" "COLE")) None None [ecole]) = [ecole]
  ∧ JS.toLowerCase (String "215" "") = String "215" "".
Proof. by vm_compute. Qed.

(** C9, as stated, fails: page -1 is out of range, and with limit 2 on five
    tasks [getAll] returns two of them: [slice(-4, -2)] counts both indices
    from the end of the array. *)
Lemma getAll_negative_page_counterexample :
  ¬ page_in_range (-1) 2 (length (filtered_set None None sample))
  ∧ data (getAll None None (Some (-1)) (Some 2) sample) = [report; project].
Proof. split; [intros [? _]; lia | reflexivity]. Qed.

(** C9, amended: for every store state and filters, [getAll] computes
    [startIndex = (page-1)*limit] and [endIndex = page*limit] and returns
    [slice(startIndex, endIndex)] of the filtered set; for a page numbered
    from 1 and a limit that is not negative this is the interval
    [startIndex, endIndex) of the filtered set; for every page that starts at
    or beyond the end of the filtered set, and for page 0, [data] is empty;
    [getAll] is a total function, no page makes it fail. *)
Theorem getAll_pagination status_ title_ (p L : Z) (tasks : list Task) :
  data (getAll status_ title_ (Some p) (Some L) tasks)
  = JS.slice (filtered_set status_ title_ tasks) ((p - 1) * L) (p * L)
  ∧ (1 ≤ p → 0 ≤ L →
       data (getAll status_ title_ (Some p) (Some L) tasks)
       = take (Z.to_nat L)
           (drop (Z.to_nat ((p - 1) * L)) (filtered_set status_ title_ tasks)))
  ∧ (Z.of_nat (length (filtered_set status_ title_ tasks)) ≤ (p - 1) * L →
       data (getAll status_ title_ (Some p) (Some L) tasks) = [])
  ∧ (p = 0 → data (getAll status_ title_ (Some p) (Some L) tasks) = []).
Proof.
  rewrite getAll_data_Some. split; [done|]. split; [|split].
  - intros Hp HL. rewrite slice_interval by nia. do 2 f_equal. lia.
  - apply slice_past_end.
  - intros ->. apply slice_end_0.
Qed.

Lemma getAll_pagination_witness :
  data (getAll None (Some "pro") (Some 2) (Some 1) sample) = [review]
  ∧ data (getAll None (Some "pro") (Some 3) (Some 1) sample) = []
  ∧ data (getAll None (Some "pro") (Some 0) (Some 1) sample) = [].
Proof.
  pose proof (getAll_pagination None (Some "pro") 2 1 sample) as (_ & H2 & _).
  pose proof (getAll_pagination None (Some "pro") 3 1 sample) as (_ & _ & H3 & _).
  pose proof (getAll_pagination None (Some "pro") 0 1 sample) as (_ & _ & _ & H0).
  split; [|split].
  - rewrite H2 by lia. reflexivity.
  - apply H3. vm_compute. discriminate.
  - by apply H0.
Defined.

(** C10: [getAll] uses the page it is given, below 1 as well: it is returned
    as it came and the indices are computed from it. With a negative page
    and a positive limit both indices are negative and [slice] counts them
    from the end of the filtered set; on five tasks, page -1 with limit 2
    returns the two tasks that are four and three places before the end.
    Page 0 with a positive limit returns no task, whatever the store. *)
Theorem getAll_page_below_1 :
  (∀ status_ title_ (p L : Z) (tasks : list Task),
     page (getAll status_ title_ (Some p) (Some L) tasks) = p
     ∧ limit (getAll status_ title_ (Some p) (Some L) tasks) = L)
  ∧ (∀ status_ title_ (p L : Z) (tasks : list Task),
       p < 0 → 0 < L →
       let F := filtered_set status_ title_ tasks in
       let len := Z.of_nat (length F) in
       data (getAll status_ title_ (Some p) (Some L) tasks)
       = take (Z.to_nat (Z.max (len + p * L) 0 - Z.max (len + (p - 1) * L) 0))
           (drop (Z.to_nat (Z.max (len + (p - 1) * L) 0)) F))
  ∧ (∃ (tasks : list Task) (p L : Z),
       p < 1 ∧ 0 < L
       ∧ data (getAll None None (Some p) (Some L) tasks) ≠ []
       ∧ data (getAll None None (Some p) (Some L) tasks)
         = take 2 (drop (length (filtered_set None None tasks) - 4)
                     (filtered_set None None tasks)))
  ∧ (∀ status_ title_ (L : Z) (tasks : list Task),
       0 < L → data (getAll status_ title_ (Some 0) (Some L) tasks) = []).
Proof.
  split; [done|]. split; [|split].
  - intros status_ title_ p L tasks Hp HL F len.
    rewrite getAll_data_Some. apply slice_from_end; nia.
  - exists sample, (-1), 2. split; [lia|]. split; [lia|].
    split; [discriminate | reflexivity].
  - intros status_ title_ L tasks _. rewrite getAll_data_Some. apply slice_end_0.
Qed.

Lemma getAll_page_below_1_witness :
  data (getAll (Some PENDING) None (Some (-1)) (Some 1) sample) = [milk]
  ∧ data (getAll (Some PENDING) None (Some 0) (Some 1) sample) = [].
Proof.
  destruct getAll_page_below_1 as (_ & Hneg & _ & Hzero). split.
  - rewrite (Hneg (Some PENDING) None (-1) 1 sample) by lia. reflexivity.
  - apply Hzero. lia.
Defined.

(** ** Facts about the store operations *)

Section StoreFacts.

Implicit Types (tasks : list Task) (i uuid : string) (d : PartialTask) (now : Z).

Lemma elem_of_ids i tasks : i ∈ ids tasks ↔ ∃ t, t ∈ tasks ∧ t.(id) = i.
Proof.
  unfold ids. rewrite list_elem_of_fmap. split.
  - intros (t & -> & Ht). by exists t.
  - intros (t & Ht & <-). by exists t.
Qed.

Lemma not_elem_of_ids i tasks :
  i ∉ ids tasks ↔ Forall (λ t, ¬ t.(id) = i) tasks.
Proof.
  rewrite elem_of_ids, Forall_forall. split.
  - intros Hni t Ht Hi. apply Hni. by exists t.
  - intros Hall (t & Ht & Hi). by apply (Hall t).
Qed.

Lemma ids_app tasks1 tasks2 : ids (tasks1 ++ tasks2) = ids tasks1 ++ ids tasks2.
Proof. apply fmap_app. Qed.

(** *** [getById] *)

Lemma getById_cons i (x : Task) tasks :
  getById i (x :: tasks)
  = if decide (x.(id) = i) then Some x else getById i tasks.
Proof.
  unfold getById, JS.find. simpl. destruct (decide _); [done|].
  by destruct (list_find _ tasks) as [[??]|].
Qed.

Lemma getById_None i tasks : getById i tasks = None ↔ i ∉ ids tasks.
Proof.
  unfold getById. rewrite find_None. symmetry. apply not_elem_of_ids.
Qed.

(** [getById] returns the first task of the identifier. *)
Lemma getById_Some i tasks (t : Task) :
  getById i tasks = Some t ↔
  ∃ l1 l2, tasks = l1 ++ t :: l2 ∧ (i ∉ ids l1) ∧ t.(id) = i.
Proof.
  induction tasks as [|x tasks IH].
  - split; [done|]. intros (l1 & l2 & Hl & _). by destruct l1.
  - rewrite getById_cons. destruct (decide (x.(id) = i)) as [Hx|Hx].
    + split.
      * intros [= ->]. exists [], tasks. split; [done|]. split; [|done].
        apply not_elem_of_nil.
      * intros ([|y l1] & l2 & Hl & Hni & Ht); simplify_eq/=; [done|].
        by apply not_elem_of_cons in Hni as [? _].
    + rewrite IH. split.
      * intros (l1 & l2 & -> & Hni & Ht). exists (x :: l1), l2.
        split; [done|]. split; [|done].
        apply not_elem_of_cons. split; [congruence | done].
      * intros ([|y l1] & l2 & Hl & Hni & Ht); simplify_eq/=.
        apply not_elem_of_cons in Hni as [_ Hni]. eauto.
Qed.


(** *** [update] *)

Lemma merge_id old d now :
  p_id d = None → (merge old d now).(id) = old.(id).
Proof. intros Hd. simpl. by rewrite Hd. Qed.

(** The two outcomes of [update]: the identifier is not stored and nothing
    changes, or the first task that has it is replaced where it stands. *)
Lemma update_spec i d now tasks :
  ((i ∉ ids tasks) ∧ update i d now tasks = (None, tasks))
  ∨ (∃ (n : nat) (old : Task),
       tasks !! n = Some old ∧ old.(id) = i
       ∧ (∀ j y, tasks !! j = Some y → (j < n)%nat → y.(id) ≠ i)
       ∧ update i d now tasks
         = (Some (merge old d now), <[n := merge old d now]> tasks)).
Proof.
  unfold update, JS.findIndex.
  destruct (list_find (λ task, task.(id) = i) tasks) as [[n old]|] eqn:Hf.
  - right. apply list_find_Some in Hf as (Hl & HP & Hm).
    exists n, old. repeat split; [done .. |].
    destruct (Z.eqb_spec (Z.of_nat n) (-1)) as [|_]; [lia|].
    rewrite Nat2Z.id, Hl. rewrite list_lookup_insert_eq; [done|].
    by eapply lookup_lt_Some.
  - left. apply list_find_None in Hf. split; [|done].
    by apply not_elem_of_ids.
Qed.

Lemma update_index_in_range i d now tasks :
  JS.findIndex (λ task, task.(id) = i) tasks ≠ -1 →
  is_Some (tasks !! Z.to_nat (JS.findIndex (λ task, task.(id) = i) tasks)).
Proof.
  intros Hne. edestruct (findIndex_found (λ task, task.(id) = i) tasks)
    as (x & Hx & _); [done .. |]. by exists x.
Qed.

Lemma update_length i d now tasks :
  length (update i d now tasks).2 = length tasks.
Proof.
  destruct (update_spec i d now tasks) as [[_ ->]|(n & old & _ & _ & _ & ->)];
    [done|]. apply length_insert.
Qed.

(** An update that went through the schema leaves the identifiers as they
    are, position by position. *)
Lemma update_ids i d now tasks :
  only_schema_keys d → ids (update i d now tasks).2 = ids tasks.
Proof.
  intros (Hid & _).
  destruct (update_spec i d now tasks) as [[_ ->]|(n & old & Hl & _ & _ & ->)];
    [done|]. unfold ids; simpl. rewrite list_fmap_insert, merge_id by done.
  apply list_insert_id. by rewrite list_lookup_fmap, Hl.
Qed.

(** *** [remove] *)

Lemma filter_ids i tasks :
  ids (filter (λ task, task.(id) ≠ i) tasks) = filter (λ j, j ≠ i) (ids tasks).
Proof.
  induction tasks as [|x tasks IH]; [done|]. unfold ids in *.
  destruct (decide (x.(id) ≠ i)).
  - rewrite filter_cons_True by done. rewrite !fmap_cons.
    rewrite filter_cons_True by done. by rewrite IH.
  - rewrite filter_cons_False by done. rewrite fmap_cons.
    by rewrite filter_cons_False by done.
Qed.

Lemma remove_ids i tasks :
  ids (remove i tasks).2 = filter (λ j, j ≠ i) (ids tasks).
Proof. apply filter_ids. Qed.

Lemma remove_true i tasks : (remove i tasks).1 = true ↔ i ∈ ids tasks.
Proof.
  simpl. rewrite bool_decide_eq_true. split.
  - intros Hlt. destruct (decide (i ∈ ids tasks)) as [|Hni]; [done|].
    apply not_elem_of_ids in Hni. rewrite filter_all in Hlt; [lia|].
    eapply Forall_impl; [exact Hni|]. done.
  - intros (t & Ht & Hi)%elem_of_ids.
    apply (length_filter_lt _ _ t); [done|]. by intros Hne.
Qed.

Lemma remove_absent i tasks : i ∉ ids (remove i tasks).2.
Proof.
  rewrite remove_ids. by intros [Hne _]%list_elem_of_filter.
Qed.

(** *** The identifiers along one call *)

Lemma step_ids (op : Op) tasks :
  validated op →
  ids (step op tasks)
  = match op with
    | OpCreate uuid _ _ _ => ids tasks ++ [uuid]
    | OpRemove i => filter (λ j, j ≠ i) (ids tasks)
    | _ => ids tasks
    end.
Proof.
  destruct op; simpl; intros Hv; try done.
  - by rewrite ids_app.
  - by apply update_ids.
  - apply filter_ids.
Qed.

Lemma step_NoDup (op : Op) tasks :
  validated op →
  match op with OpCreate uuid _ _ _ => uuid ∉ ids tasks | _ => True end →
  NoDup (ids tasks) → NoDup (ids (step op tasks)).
Proof.
  intros Hv Hf Hnd. rewrite step_ids by done. destruct op; try done.
  - apply NoDup_app. split; [done|]. split; [|apply NoDup_singleton].
    intros x Hx ->%list_elem_of_singleton. done.
  - by apply NoDup_filter.
Qed.

(** *** What reaches the store went through the schema *)

Lemma updateTaskSchema_keys d : updateTaskSchema d = true → only_schema_keys d.
Proof.
  unfold updateTaskSchema. rewrite !andb_true_iff, bool_decide_eq_true.
  by intros [[[? _] _] _].
Qed.

Lemma store_call_validated (r : Request) (e : Env) (op : Op) :
  store_call r e = Some op → validated op.
Proof.
  destruct r; simpl; try (by intros [= <-]).
  - destruct (createTaskSchema body); by intros [= <-].
  - destruct (updateTaskSchema body) eqn:Hs; intros [= <-].
    by apply updateTaskSchema_keys.
Qed.

Lemma served_validated (rs : list (Request * Env)) : Forall validated (served rs).
Proof.
  apply Forall_forall. intros op (re & _ & Hop)%list_elem_of_omap.
  by eapply store_call_validated.
Qed.

End StoreFacts.

(** ** Creating, updating and removing one task *)

(** C3, on the code: [create] reads the clock twice, once for [createdAt] and
    once for [updatedAt]. For a title and a description that fit the schema,
    when the clock moves from 1000 to 1001 between the two readings, the task
    [create] returns has a [createdAt] that is not its [updatedAt]. *)
Lemma create_timestamps_differ :
  createTaskSchema (mkCreateData "Buy milk" "2% milk") = true
  ∧ (create "a1" 1000 1001 (mkCreateData "Buy milk" "2% milk") initial).1
    = mkTask "a1" "Buy milk" "2% milk" PENDING 1000 1001
  ∧ createdAt (create "a1" 1000 1001 (mkCreateData "Buy milk" "2% milk") initial).1
    ≠ updatedAt (create "a1" 1000 1001 (mkCreateData "Buy milk" "2% milk") initial).1.
Proof. split; [reflexivity|]. split; [reflexivity | discriminate]. Qed.

(** X1: what [create] does guarantee, for every title and description and every
    store state: it always returns; the task has status PENDING, the title
    and description given, the identifier [uuidv4()] produced, [createdAt]
    from the first reading of the clock and [updatedAt] from the second,
    equal when the two readings are; the task is appended at the end of the
    collection, after the tasks already stored, which keep their place and
    their content; and a fresh identifier keeps the identifiers distinct. *)
Theorem create_postcondition uuid (now1 now2 : Z) (d : CreateData)
    (tasks : list Task) :
  (create uuid now1 now2 d tasks).1
  = mkTask uuid (c_title d) (c_description d) PENDING now1 now2
  ∧ (create uuid now1 now2 d tasks).2
    = tasks ++ [(create uuid now1 now2 d tasks).1]
  ∧ (∀ n t, tasks !! n = Some t → (create uuid now1 now2 d tasks).2 !! n = Some t)
  ∧ (create uuid now1 now2 d tasks).2 !! length tasks
    = Some (create uuid now1 now2 d tasks).1
  ∧ length (create uuid now1 now2 d tasks).2 = S (length tasks)
  ∧ ((uuid ∉ ids tasks) → NoDup (ids tasks) →
       NoDup (ids (create uuid now1 now2 d tasks).2))
  ∧ (now1 = now2 →
       createdAt (create uuid now1 now2 d tasks).1
       = updatedAt (create uuid now1 now2 d tasks).1).
Proof.
  simpl. repeat split; try done.
  - intros n t Hn. by apply lookup_app_l_Some.
  - by rewrite list_lookup_middle.
  - rewrite length_app. simpl. lia.
  - intros Hf Hnd.
    by apply (step_NoDup (OpCreate uuid now1 now2 d) tasks).
Qed.

(** C4: for every store state that holds a task of the given identifier and
    every [data] made of the keys title, description and status, [update]
    replaces the first task of that identifier, where it stands, by the task
    that has the title, description and status of [data] where [data] has
    them and those of the stored task where it has not, the clock reading as
    [updatedAt], and the [id] and [createdAt] of the stored task; it returns
    that task; every other position of the collection keeps its task. *)
Theorem update_partial_frame (i : string) (d : PartialTask) (now : Z)
    (tasks : list Task) :
  i ∈ ids tasks → only_schema_keys d →
  ∃ (n : nat) (old new : Task),
    tasks !! n = Some old ∧ old.(id) = i
    ∧ (∀ j y, tasks !! j = Some y → (j < n)%nat → y.(id) ≠ i)
    ∧ update i d now tasks = (Some new, <[n := new]> tasks)
    ∧ new.(title) = default old.(title) (p_title d)
    ∧ new.(description) = default old.(description) (p_description d)
    ∧ new.(status) = default old.(status) (p_status d)
    ∧ new.(updatedAt) = now
    ∧ new.(id) = old.(id)
    ∧ new.(createdAt) = old.(createdAt)
    ∧ (update i d now tasks).2 !! n = Some new
    ∧ length (update i d now tasks).2 = length tasks
    ∧ ∀ j, j ≠ n → (update i d now tasks).2 !! j = tasks !! j.
Proof.
  intros Hin (Hid & Hc & Hu).
  destruct (update_spec i d now tasks)
    as [[Hni _]|(n & old & Hl & Ho & Hm & Hupd)]; [done|].
  exists n, old, (merge old d now). rewrite Hupd. simpl.
  rewrite Hid, Hc. repeat split; try done.
  - apply list_lookup_insert_eq. by eapply lookup_lt_Some.
  - apply length_insert.
  - intros j Hj. by apply list_lookup_insert_ne.
Qed.

Lemma update_partial_frame_witness :
  ∃ (n : nat) (new : Task),
    update "b2" (mkPartial None None None (Some IN_PROGRESS) None None) 9000 sample
    = (Some new, <[n := new]> sample)
    ∧ new = mkTask "b2" "Write report" "Q3 report" IN_PROGRESS 2000 9000.
Proof.
  destruct (update_partial_frame "b2"
              (mkPartial None None None (Some IN_PROGRESS) None None) 9000 sample)
    as (n & old & new & Hl & Ho & Hm & Hupd & _).
  - apply (bool_decide_unpack _). by vm_compute.
  - by vm_compute.
  - exists n, new. split; [exact Hupd|].
    vm_compute in Hupd. by injection Hupd as <- _.
Defined.

(** C7: for every store state, [remove] returns true exactly when a task of
    the identifier was stored; afterwards no task of the identifier is stored
    and the tasks of the other identifiers are all there, in their order; a
    second [remove] of the identifier returns false, so that two calls in a
    row on a stored identifier return true and then false. *)
Theorem remove_iff_present (i : string) (tasks : list Task) :
  ((remove i tasks).1 = true ↔ i ∈ ids tasks)
  ∧ (i ∉ ids (remove i tasks).2)
  ∧ (remove i tasks).2 = filter (λ task, task.(id) ≠ i) tasks
  ∧ (remove i (remove i tasks).2).1 = false
  ∧ (i ∈ ids tasks →
       (remove i tasks).1 = true ∧ (remove i (remove i tasks).2).1 = false).
Proof.
  assert (Hsecond : (remove i (remove i tasks).2).1 = false).
  { apply not_true_is_false. rewrite remove_true. apply remove_absent. }
  split; [apply remove_true|]. split; [apply remove_absent|].
  split; [done|]. split; [done|].
  intros Hin. split; [by apply remove_true | done].
Qed.

Lemma remove_iff_present_witness :
  (remove "b2" sample).1 = true
  ∧ (remove "b2" (remove "b2" sample).2).1 = false.
Proof.
  apply (remove_iff_present "b2" sample). by_evaluation.
Defined.

(** ** Sequences of calls *)

#[global] Instance validated_dec op : Decision (validated op).
Proof. destruct op; simpl; apply _. Defined.

#[global] Instance keeps_id_dec op : Decision (keeps_id op).
Proof. destruct op; simpl; apply _. Defined.

#[global] Instance keeps_createdAt_dec op : Decision (keeps_createdAt op).
Proof. destruct op; simpl; apply _. Defined.

#[global] Instance leaves_alone_dec i op : Decision (leaves_alone i op).
Proof. destruct op; simpl; apply _. Defined.

#[global] Instance uuids_fresh_dec ops tasks : Decision (uuids_fresh ops tasks).
Proof.
  revert tasks. induction ops as [|op ops IH]; intros tasks; simpl; [apply _|].
  destruct op; apply _.
Defined.

#[global] Instance clock_monotone_dec clock ops :
  Decision (clock_monotone clock ops).
Proof.
  revert clock. induction ops as [|op ops IH]; intros clock; simpl; [apply _|].
  destruct op; apply _.
Defined.

Section Runs.

Implicit Types (tasks : list Task) (g : list (string * Task)) (op : Op)
  (ops : list Op) (i : string).

(** *** The history agrees with the store *)

Lemma born_filter i g :
  (filter (λ b, b.2.(id) ≠ i) g).*2 = filter (λ task, task.(id) ≠ i) g.*2.
Proof.
  induction g as [|[u t] g IH]; [done|].
  destruct (decide (t.(id) ≠ i)).
  - rewrite filter_cons_True by done. rewrite !fmap_cons.
    rewrite filter_cons_True by done. by rewrite IH.
  - rewrite filter_cons_False by done. rewrite fmap_cons.
    by rewrite filter_cons_False by done.
Qed.

Lemma born_step_store op g : (born_step op g).*2 = step op g.*2.
Proof.
  destruct op; simpl; try done.
  - by rewrite fmap_app.
  - apply snd_zip. by rewrite update_length, !length_fmap.
  - apply born_filter.
Qed.

Lemma born_run_store ops g : (born_run ops g).*2 = run ops g.*2.
Proof.
  revert g. induction ops as [|op ops IH]; intros g; simpl; [done|].
  by rewrite IH, born_step_store.
Qed.

(** *** Every task keeps the identifier it was created with *)

Lemma born_ids g : Forall (λ b, b.2.(id) = b.1) g ↔ g.*1 = ids g.*2.
Proof.
  induction g as [|[u t] g IH].
  - split; [done | constructor].
  - rewrite Forall_cons, IH. unfold ids. rewrite !fmap_cons. simpl. split.
    + by intros [-> ->].
    + by intros [= -> ->].
Qed.

Lemma born_step_ids op g :
  validated op →
  Forall (λ b, b.2.(id) = b.1) g →
  Forall (λ b, b.2.(id) = b.1) (born_step op g).
Proof.
  intros Hv Hg. destruct op; simpl; try done.
  - apply Forall_app. split; [done|]. by constructor.
  - apply born_ids. rewrite snd_zip, fst_zip
      by (rewrite update_length, !length_fmap; lia).
    rewrite update_ids by done. by apply born_ids.
  - apply Forall_forall. intros b [_ Hb]%list_elem_of_filter.
    by eapply Forall_forall in Hg.
Qed.

Lemma born_run_ids ops g :
  Forall validated ops →
  Forall (λ b, b.2.(id) = b.1) g →
  Forall (λ b, b.2.(id) = b.1) (born_run ops g).
Proof.
  revert g. induction ops as [|op ops IH]; intros g Hv Hg; simpl; [done|].
  inversion_clear Hv. apply IH; [done|]. by apply born_step_ids.
Qed.

Lemma run_NoDup ops tasks :
  uuids_fresh ops tasks → Forall validated ops →
  NoDup (ids tasks) → NoDup (ids (run ops tasks)).
Proof.
  revert tasks. induction ops as [|op ops IH]; intros tasks Hf Hv Hnd;
    simpl; [done|].
  destruct Hf as [Hop Hf]. inversion_clear Hv.
  apply IH; [done .. |]. by apply step_NoDup.
Qed.

(** The same with no more asked of an update than a body without an [id]
    key. *)
Lemma validated_keeps_id op : validated op → keeps_id op.
Proof. destruct op; simpl; try done. by intros (? & _). Qed.

Lemma validated_keeps_createdAt op : validated op → keeps_createdAt op.
Proof. destruct op; simpl; try done. by intros (_ & ? & _). Qed.

Lemma update_keeps_ids i (d : PartialTask) (now : Z) tasks :
  p_id d = None → ids (update i d now tasks).2 = ids tasks.
Proof.
  intros Hid.
  destruct (update_spec i d now tasks) as [[_ ->]|(n & old & Hl & _ & _ & ->)];
    [done|]. unfold ids; simpl. rewrite list_fmap_insert, merge_id by done.
  apply list_insert_id. by rewrite list_lookup_fmap, Hl.
Qed.

Lemma born_step_keeps_id op g :
  keeps_id op →
  Forall (λ b, b.2.(id) = b.1) g →
  Forall (λ b, b.2.(id) = b.1) (born_step op g).
Proof.
  intros Hv Hg. destruct op; simpl; try done.
  - apply Forall_app. split; [done|]. by constructor.
  - apply born_ids. rewrite snd_zip, fst_zip
      by (rewrite update_length, !length_fmap; lia).
    rewrite update_keeps_ids by done. by apply born_ids.
  - apply Forall_forall. intros b [_ Hb]%list_elem_of_filter.
    by eapply Forall_forall in Hg.
Qed.

Lemma born_run_keeps_id ops g :
  Forall keeps_id ops →
  Forall (λ b, b.2.(id) = b.1) g →
  Forall (λ b, b.2.(id) = b.1) (born_run ops g).
Proof.
  revert g. induction ops as [|op ops IH]; intros g Hv Hg; simpl; [done|].
  inversion_clear Hv. apply IH; [done|]. by apply born_step_keeps_id.
Qed.

Lemma step_keeps_NoDup op tasks :
  keeps_id op →
  match op with OpCreate uuid _ _ _ => uuid ∉ ids tasks | _ => True end →
  NoDup (ids tasks) → NoDup (ids (step op tasks)).
Proof.
  intros Hv Hf Hnd. destruct op; simpl; try done.
  - rewrite ids_app. apply NoDup_app. split; [done|].
    split; [|apply NoDup_singleton].
    intros x Hx ->%list_elem_of_singleton. done.
  - by rewrite update_keeps_ids.
  - rewrite filter_ids. by apply NoDup_filter.
Qed.

Lemma run_keeps_NoDup ops tasks :
  uuids_fresh ops tasks → Forall keeps_id ops →
  NoDup (ids tasks) → NoDup (ids (run ops tasks)).
Proof.
  revert tasks. induction ops as [|op ops IH]; intros tasks Hf Hv Hnd;
    simpl; [done|].
  destruct Hf as [Hop Hf]. inversion_clear Hv.
  apply IH; [done .. |]. by apply step_keeps_NoDup.
Qed.

(** *** Timestamps *)

Definition ordered_until (clock : Z) (t : Task) : Prop :=
  t.(createdAt) ≤ t.(updatedAt) ∧ t.(updatedAt) ≤ clock.

Lemma ordered_until_mono (clock clock' : Z) tasks :
  clock ≤ clock' →
  Forall (ordered_until clock) tasks → Forall (ordered_until clock') tasks.
Proof.
  intros Hc Hall. eapply Forall_impl; [exact Hall|].
  intros t [??]. split; [done | lia].
Qed.

Lemma run_ordered ops (clock : Z) tasks :
  clock_monotone clock ops → Forall validated ops →
  Forall (ordered_until clock) tasks →
  ∃ clock', Forall (ordered_until clock') (run ops tasks).
Proof.
  revert clock tasks.
  induction ops as [|op ops IH]; intros clock tasks Hc Hv Hinv; simpl.
  { by exists clock. }
  inversion_clear Hv as [|?? Hop Hops].
  destruct op as [uuid now1 now2 d| | |i d now|i]; simpl in Hc.
  - destruct Hc as (H1 & H2 & Hc). apply (IH now2); [done .. |].
    simpl. apply Forall_app. split.
    + apply (ordered_until_mono clock); [lia | done].
    + constructor; [|done]. split; simpl; lia.
  - by apply (IH clock).
  - by apply (IH clock).
  - destruct Hc as (H1 & Hc). apply (IH now); [done .. |].
    assert (Hnow : Forall (ordered_until now) tasks)
      by (by apply (ordered_until_mono clock)).
    destruct Hop as (_ & Hcr & _). simpl.
    destruct (update_spec i d now tasks)
      as [[_ ->]|(n & old & Hl & _ & _ & ->)]; [done|].
    simpl. apply Forall_insert; [done|].
    eapply Forall_lookup in Hinv as [Ho1 Ho2]; [|exact Hl].
    split; simpl; [rewrite Hcr; simpl|]; lia.
  - apply (IH clock); [done .. |]. simpl.
    apply Forall_forall. intros t [_ Ht]%list_elem_of_filter.
    by eapply Forall_forall in Hinv.
Qed.

(** The same with no more asked of an update than a body without a
    [createdAt] key: an [updatedAt] key is overwritten by the reading of the
    clock, and the other keys are not timestamps. *)
Lemma run_keeps_ordered ops (clock : Z) tasks :
  clock_monotone clock ops → Forall keeps_createdAt ops →
  Forall (ordered_until clock) tasks →
  ∃ clock', Forall (ordered_until clock') (run ops tasks).
Proof.
  revert clock tasks.
  induction ops as [|op ops IH]; intros clock tasks Hc Hv Hinv; simpl.
  { by exists clock. }
  inversion_clear Hv as [|?? Hop Hops].
  destruct op as [uuid now1 now2 d| | |i d now|i]; simpl in Hc.
  - destruct Hc as (H1 & H2 & Hc). apply (IH now2); [done .. |].
    simpl. apply Forall_app. split.
    + apply (ordered_until_mono clock); [lia | done].
    + constructor; [|done]. split; simpl; lia.
  - by apply (IH clock).
  - by apply (IH clock).
  - destruct Hc as (H1 & Hc). apply (IH now); [done .. |].
    assert (Hnow : Forall (ordered_until now) tasks)
      by (by apply (ordered_until_mono clock)).
    simpl in Hop. simpl.
    destruct (update_spec i d now tasks)
      as [[_ ->]|(n & old & Hl & _ & _ & ->)]; [done|].
    simpl. apply Forall_insert; [done|].
    eapply Forall_lookup in Hinv as [Ho1 Ho2]; [|exact Hl].
    split; simpl; [rewrite Hop; simpl|]; lia.
  - apply (IH clock); [done .. |]. simpl.
    apply Forall_forall. intros t [_ Ht]%list_elem_of_filter.
    by eapply Forall_forall in Hinv.
Qed.

(** *** A task nobody touches stays the one [getById] finds *)




End Runs.

(** ** Invariants of the store *)

(** A day in the life of the store: two tasks are created, the first is
    started, the second is removed, a third is created and the first is
    renamed. *)
Definition sample_ops : list Op :=
  [ OpCreate "a1" 1000 1000 (mkCreateData "Buy milk" "2% milk");
    OpCreate "b2" 2000 2001 (mkCreateData "Write report" "Q3 report");
    OpUpdate "a1" (mkPartial None None None (Some IN_PROGRESS) None None) 3000;
    OpGetAll None (Some "report") None None;
    OpRemove "b2";
    OpCreate "c3" 4000 4000 (mkCreateData "Plan project" "kick-off");
    OpUpdate "a1" (mkPartial None (Some "Buy oat milk") None None None None) 5000;
    OpGetById "b2" ].

(** Requests as they come: the second carries an [id] key and the fourth a
    title that is too short; both are answered 400 and call nothing. *)
Definition sample_requests : list (Request * Env) :=
  [ (POST_tasks (mkCreateData "Buy milk" "2% milk"), mkEnv "a1" 1000 1000);
    (PUT_task "a1" (mkPartial (Some "zz") None None (Some COMPLETED) None None),
     mkEnv "" 2000 2000);
    (PUT_task "a1" (mkPartial None None None (Some COMPLETED) None None),
     mkEnv "" 3000 3000);
    (POST_tasks (mkCreateData "ab" "too short a title"), mkEnv "b2" 4000 4000);
    (POST_tasks (mkCreateData "Write report" "Q3 report"), mkEnv "c3" 5000 5000) ].

(** The schema is what keeps the identifier: the store itself would merge an
    [id] key over the stored one. *)
Example update_beyond_schema :
  ids (update "a1" (mkPartial (Some "b2") None None None None None) 9000
         [milk; report]).2
  = ["b2"; "b2"].
Proof. reflexivity. Qed.

(** Two tasks are created and the first is updated with a body that carries
    the identifier of the second. *)
Definition rewriting_ops : list Op :=
  [ OpCreate "a1" 1000 1000 (mkCreateData "Buy milk" "2% milk");
    OpCreate "b2" 2000 2000 (mkCreateData "Write report" "Q3 report");
    OpUpdate "a1" (mkPartial (Some "b2") None None None None None) 3000 ].

(** [uuidv4()] returns the same identifier twice. *)
Definition repeating_ops : list Op :=
  [ OpCreate "a1" 1000 1000 (mkCreateData "Buy milk" "2% milk");
    OpCreate "a1" 2000 2000 (mkCreateData "Write report" "Q3 report") ].

(** C5, as stated, fails.  The identifiers [create] gave are fresh and
    distinct, [a1] and [b2], and an [update] of [a1] whose body has the key
    [id] with the value [b2] leaves a store in which the first task no longer
    has the identifier it was created with and two tasks have the same one:
    [update] spreads the whole body over the stored task.  Apart from
    [update], [create] stores the identifier [uuidv4()] returns without
    looking at the stored ones, so an identifier returned twice is stored
    twice. *)
Lemma id_integrity_counterexample :
  (uuids_fresh rewriting_ops initial
   ∧ (born_run rewriting_ops []).*1 = ["a1"; "b2"]
   ∧ ids (run rewriting_ops initial) = ["b2"; "b2"]
   ∧ ¬ Forall (λ b, b.2.(id) = b.1) (born_run rewriting_ops [])
   ∧ ¬ NoDup (ids (run rewriting_ops initial)))
  ∧ (Forall keeps_id repeating_ops
     ∧ ids (run repeating_ops initial) = ["a1"; "a1"]
     ∧ ¬ NoDup (ids (run repeating_ops initial))).
Proof.
  split.
  - split; [by_evaluation|]. split; [reflexivity|]. split; [reflexivity|].
    split.
    + intros H. apply Forall_cons in H as [H _]. simpl in H. discriminate H.
    + intros H. apply NoDup_cons in H as [H _]. apply H. by left.
  - split; [by_evaluation|]. split; [reflexivity|].
    intros H. apply NoDup_cons in H as [H _]. apply H. by left.
Qed.

(** C5, amended: in every store state reached from the empty store by a
    sequence of create, getById, getAll, update and remove calls in which
    [uuidv4()] gives each created task an identifier no stored task has and
    no update body carries an [id] key, the identifier of each stored task is
    the one it was created with, update included, and the stored tasks have
    pairwise distinct identifiers. *)
Theorem id_integrity (ops : list Op) :
  uuids_fresh ops initial → Forall keeps_id ops →
  (born_run ops []).*2 = run ops initial
  ∧ Forall (λ b, b.2.(id) = b.1) (born_run ops [])
  ∧ NoDup (ids (run ops initial)).
Proof.
  intros Hf Hv. split; [|split].
  - apply born_run_store.
  - apply born_run_keeps_id; [done | constructor].
  - apply run_keeps_NoDup; [done .. | constructor].
Qed.

Lemma id_integrity_witness :
  born_run sample_ops [] = zip ["a1"; "c3"] (run sample_ops initial)
  ∧ NoDup (ids (run sample_ops initial)).
Proof.
  destruct (id_integrity sample_ops ltac:(by_evaluation) ltac:(by_evaluation))
    as (_ & _ & Hnd).
  split; [reflexivity | exact Hnd].
Defined.

(** X2: through the routes the schema is not an assumption: whatever requests
    are served, as long as [uuidv4()] gives fresh identifiers, every stored
    task has the identifier it was created with and the identifiers are
    pairwise distinct. *)
Theorem served_ids_kept (rs : list (Request * Env)) :
  uuids_fresh (served rs) initial →
  Forall (λ b, b.2.(id) = b.1) (born_run (served rs) [])
  ∧ (born_run (served rs) []).*2 = run (served rs) initial
  ∧ NoDup (ids (run (served rs) initial)).
Proof.
  intros Hf. pose proof (served_validated rs) as Hv. split; [|split].
  - apply born_run_ids; [done | constructor].
  - apply born_run_store.
  - apply run_NoDup; [done .. | constructor].
Qed.

Lemma served_ids_kept_witness :
  ids (run (served sample_requests) initial) = ["a1"; "c3"]
  ∧ NoDup (ids (run (served sample_requests) initial)).
Proof.
  split; [reflexivity|].
  apply (served_ids_kept sample_requests). by_evaluation.
Defined.

(** The clock is set back between a creation and an update. *)
Definition backward_clock_ops : list Op :=
  [ OpCreate "a1" 1000 1000 (mkCreateData "Buy milk" "2% milk");
    OpUpdate "a1" (mkPartial None None None (Some COMPLETED) None None) 999 ].

(** The body of an update carries a [createdAt] key. *)
Definition createdAt_key_ops : list Op :=
  [ OpCreate "a1" 1000 1000 (mkCreateData "Buy milk" "2% milk");
    OpUpdate "a1" (mkPartial None None None None (Some 9000) None) 2000 ].

(** C6, as stated, fails: [updatedAt >= createdAt] is not kept by every
    sequence of calls.  [new Date()] reads the wall clock, and an update made
    after the clock was set back stores an [updatedAt] before the
    [createdAt] of the task (999 against 1000).  And on a clock that never
    goes back, an update whose body has a [createdAt] key stores that value,
    here 9000, next to the [updatedAt] it reads, 2000. *)
Lemma timestamps_ordered_counterexample :
  (Forall keeps_createdAt backward_clock_ops
   ∧ ¬ Forall (λ t, t.(createdAt) ≤ t.(updatedAt))
         (run backward_clock_ops initial))
  ∧ (clock_monotone 0 createdAt_key_ops
     ∧ ¬ Forall (λ t, t.(createdAt) ≤ t.(updatedAt))
           (run createdAt_key_ops initial)).
Proof.
  split; (split; [by_evaluation|]); intros H;
    apply Forall_cons in H as [H _]; simpl in H; lia.
Qed.

(** C6, amended: in every store state reached from the empty store on a
    clock whose readings never decrease, by calls whose update bodies carry
    no [createdAt] key, every task has [updatedAt >= createdAt]; [create]
    establishes it and [update] preserves it: it keeps [createdAt] and sets
    [updatedAt] to the current reading, which is never earlier than the
    creation of the task. *)
Theorem timestamps_ordered (clock : Z) (ops : list Op) :
  clock_monotone clock ops → Forall keeps_createdAt ops →
  Forall (λ t, t.(createdAt) ≤ t.(updatedAt)) (run ops initial)
  ∧ (∀ uuid now1 now2 d tasks,
       now1 ≤ now2 →
       (create uuid now1 now2 d tasks).1.(createdAt)
       ≤ (create uuid now1 now2 d tasks).1.(updatedAt))
  ∧ (∀ i d now tasks new,
       p_createdAt d = None → (update i d now tasks).1 = Some new →
       new.(updatedAt) = now
       ∧ ∃ old, old ∈ tasks ∧ old.(id) = i ∧ new.(createdAt) = old.(createdAt)).
Proof.
  intros Hc Hv. split; [|split].
  - destruct (run_keeps_ordered ops clock initial Hc Hv) as [clock' Hall];
      [constructor|].
    eapply Forall_impl; [exact Hall|]. by intros t [? _].
  - done.
  - intros i d now tasks new Hcr Hupd.
    destruct (update_spec i d now tasks)
      as [[_ Hu]|(n & old & Hl & Ho & _ & Hu)]; rewrite Hu in Hupd;
      simplify_eq/=.
    split; [done|]. exists old. split; [by eapply list_elem_of_lookup_2|].
    split; [done|]. by rewrite Hcr.
Qed.

Lemma timestamps_ordered_witness :
  Forall (λ t, t.(createdAt) ≤ t.(updatedAt)) (run sample_ops initial).
Proof.
  apply (timestamps_ordered 0 sample_ops
           ltac:(by_evaluation) ltac:(by_evaluation)).
Defined.



(** ** The scenario of the specification *)

Section Scenario.

Let A := mkTask "A" "Buy milk" "2% milk" PENDING 10 10.
Let B := mkTask "B" "Write report" "Q3 report" PENDING 20 20.
Let s1 := (create "A" 10 10 (mkCreateData "Buy milk" "2% milk") initial).2.
Let s2 := (create "B" 20 20 (mkCreateData "Write report" "Q3 report") s1).2.
Let s3 :=
  (update "A" (mkPartial None None None (Some IN_PROGRESS) None None) 30 s2).2.
Let s4 := (remove "B" s3).2.

(** Create A and B; listing by the title "report" returns exactly B, with
    total 1; after A is set IN_PROGRESS, [getById] shows it so; removing B
    returns true, and B is then not found. *)
Example scenario :
  s2 = [A; B]
  ∧ getAll None (Some "report") None None s2 = mkListing 1 1 10 [B]
  ∧ status <$> getById "A" s3 = Some IN_PROGRESS
  ∧ (remove "B" s3).1 = true
  ∧ getById "B" s4 = None.
Proof. by vm_compute. Qed.

End Scenario.


(** * More of the store *)

(** ** Identifiers that are not stored, and lookups after a change *)

Section StoreMore.

Implicit Types (tasks : list Task) (i j uuid : string) (d : PartialTask)
  (now : Z).

Lemma getById_app_l i tasks1 tasks2 (t : Task) :
  getById i tasks1 = Some t → getById i (tasks1 ++ tasks2) = Some t.
Proof.
  intros (l1 & l2 & -> & Hni & Ht)%getById_Some. apply getById_Some.
  exists l1, (l2 ++ tasks2). split; [|done]. by rewrite <- app_assoc.
Qed.

Lemma getById_app_r i tasks1 tasks2 :
  (i ∉ ids tasks1) → getById i (tasks1 ++ tasks2) = getById i tasks2.
Proof.
  induction tasks1 as [|x tasks1 IH]; [done|]. intros Hni.
  unfold ids in Hni. rewrite fmap_cons in Hni.
  apply not_elem_of_cons in Hni as [Hx Hni]. simpl.
  rewrite getById_cons. destruct (decide (id x = i)); [congruence|].
  by apply IH.
Qed.

Lemma getById_filter_ne i j tasks :
  j ≠ i →
  getById j (filter (λ task, task.(id) ≠ i) tasks) = getById j tasks.
Proof.
  intros Hne. induction tasks as [|x tasks IH]; [done|].
  destruct (decide (x.(id) ≠ i)) as [Hx|Hx].
  - rewrite filter_cons_True by done. rewrite !getById_cons, IH. done.
  - rewrite filter_cons_False by done. rewrite getById_cons, IH.
    destruct (decide (id x = j)); [|done]. destruct Hx. congruence.
Qed.

Lemma getById_insert_ne j (n : nat) (old new : Task) tasks :
  tasks !! n = Some old → old.(id) ≠ j → new.(id) ≠ j →
  getById j (<[n := new]> tasks) = getById j tasks.
Proof.
  revert n. induction tasks as [|x tasks IH]; intros [|n] Hl Ho Hn;
    simplify_eq/=.
  - rewrite !getById_cons. by rewrite !decide_False by done.
  - rewrite !getById_cons. destruct (decide (id x = j)); [done|].
    by eapply IH.
Qed.

(** The first task of an identifier is the one [update] replaces. *)
Lemma update_found i d now tasks (n : nat) (old : Task) :
  tasks !! n = Some old → old.(id) = i →
  (∀ k y, tasks !! k = Some y → (k < n)%nat → y.(id) ≠ i) →
  update i d now tasks
  = (Some (merge old d now), <[n := merge old d now]> tasks).
Proof.
  intros Hl Ho Hm.
  destruct (update_spec i d now tasks)
    as [[Hni _]|(n' & old' & Hl' & Ho' & Hm' & ->)].
  - destruct Hni. apply elem_of_ids. exists old.
    split; [by eapply list_elem_of_lookup_2 | done].
  - assert (n' = n) as ->.
    { destruct (Nat.lt_trichotomy n' n) as [Hlt|[->|Hlt]]; [|done|].
      - by destruct (Hm n' old' Hl' Hlt).
      - by destruct (Hm' n old Hl Hlt). }
    by simplify_eq.
Qed.

Lemma merge_merge (old : Task) d now now' :
  merge (merge old d now') d now = merge old d now.
Proof.
  unfold merge, spread. simpl.
  by destruct (p_id d), (p_title d), (p_description d), (p_status d),
    (p_createdAt d).
Qed.

Lemma remove_unstored i tasks : (i ∉ ids tasks) → remove i tasks = (false, tasks).
Proof.
  intros Hni. unfold remove. rewrite filter_all.
  - f_equal. apply bool_decide_eq_false. lia.
  - apply not_elem_of_ids in Hni. eapply Forall_impl; [exact Hni|]. done.
Qed.

Lemma getById_update i d now tasks :
  p_id d = None →
  getById i (update i d now tasks).2 = (update i d now tasks).1.
Proof.
  intros Hid.
  destruct (update_spec i d now tasks)
    as [[Hni ->]|(n & old & Hl & Ho & Hm & ->)]; simpl.
  - by apply getById_None.
  - apply getById_Some.
    exists (take n tasks), (drop (S n) tasks). split; [|split].
    + apply insert_take_drop. by eapply lookup_lt_Some.
    + apply not_elem_of_ids, Forall_lookup. intros k y Hk.
      apply lookup_take_Some in Hk as [Hk Hlt]. by apply (Hm k).
    + by rewrite merge_id.
Qed.

Lemma update_None_iff i d now tasks :
  (update i d now tasks).1 = None ↔ i ∉ ids tasks.
Proof.
  destruct (update_spec i d now tasks)
    as [[Hni ->]|(n & old & Hl & Ho & _ & ->)]; simpl; [done|].
  split; [done|]. intros Hni. destruct Hni. apply elem_of_ids. exists old.
  split; [by eapply list_elem_of_lookup_2 | done].
Qed.

End StoreMore.

(** X3: [update] answers [null] exactly for the identifiers no stored task
    has, and then leaves the collection as it was, whatever the body. *)
Theorem update_missing_id (i : string) (d : PartialTask) (now : Z)
    (tasks : list Task) :
  ((update i d now tasks).1 = None ↔ i ∉ ids tasks)
  ∧ ((i ∉ ids tasks) → update i d now tasks = (None, tasks)).
Proof.
  destruct (update_spec i d now tasks)
    as [[Hni Hu]|(n & old & Hl & Ho & _ & Hu)]; rewrite Hu; simpl.
  - split; [done|]. done.
  - assert (Hin : i ∈ ids tasks).
    { apply elem_of_ids. exists old.
      split; [by eapply list_elem_of_lookup_2 | done]. }
    split; [split; [done | by intros ?] | by intros ?].
Qed.

(** X4: after an update whose body has no [id] key, [getById] of the
    identifier returns what [update] returned: the merged task when the
    identifier is stored, nothing when it is not. *)
Theorem update_then_getById (i : string) (d : PartialTask) (now : Z)
    (tasks : list Task) :
  p_id d = None →
  getById i (update i d now tasks).2 = (update i d now tasks).1.
Proof. apply getById_update. Qed.

Lemma update_then_getById_witness :
  getById "c3"
    (update "c3" (mkPartial None (Some "Plan launch") None None None None) 9000
       sample).2
  = Some (mkTask "c3" "Plan launch" "kick-off" IN_PROGRESS 3000 9000).
Proof.
  rewrite (update_then_getById "c3"
             (mkPartial None (Some "Plan launch") None None None None) 9000 sample);
    reflexivity.
Defined.

(** X5: a call that names one identifier does not change what [getById]
    returns for any other: not [update] (its body having no [id] key), not
    [remove], and not [create] for the identifier it stores the task under. *)
Theorem other_lookups_kept (i j : string) (tasks : list Task) :
  j ≠ i →
  (∀ d now, p_id d = None →
     getById j (update i d now tasks).2 = getById j tasks)
  ∧ getById j (remove i tasks).2 = getById j tasks
  ∧ (∀ now1 now2 c,
       getById j (create i now1 now2 c tasks).2 = getById j tasks).
Proof.
  intros Hne. split; [|split].
  - intros d now Hid.
    destruct (update_spec i d now tasks)
      as [[_ ->]|(n & old & Hl & Ho & _ & ->)]; [done|]. simpl.
    apply (getById_insert_ne j n old); [done | congruence |].
    rewrite merge_id by done. congruence.
  - by apply getById_filter_ne.
  - intros now1 now2 c. simpl.
    destruct (getById j tasks) as [t|] eqn:Hget.
    + by apply getById_app_l.
    + rewrite getById_app_r by (by apply getById_None).
      rewrite getById_cons. simpl. by rewrite decide_False by done.
Qed.

Lemma other_lookups_kept_witness :
  getById "d4" (remove "b2" sample).2 = Some review.
Proof.
  destruct (other_lookups_kept "b2" "d4" sample ltac:(discriminate))
    as (_ & Hremove & _).
  rewrite Hremove. reflexivity.
Defined.

(** X6: on a collection whose identifiers are pairwise distinct, [remove]
    takes out exactly the one task of the identifier and leaves every other
    task where it was, in order; for an identifier that is not stored it
    returns false and the collection is as before. *)
Theorem remove_exactly_one (i : string) (tasks : list Task) :
  NoDup (ids tasks) →
  ((i ∉ ids tasks) → remove i tasks = (false, tasks))
  ∧ (i ∈ ids tasks →
       ∃ l1 t l2, tasks = l1 ++ t :: l2 ∧ t.(id) = i
                  ∧ remove i tasks = (true, l1 ++ l2)).
Proof.
  intros Hnd. split; [apply remove_unstored|].
  intros (t & Ht & Hi)%elem_of_ids.
  apply list_elem_of_split in Ht as (l1 & l2 & ->).
  exists l1, t, l2. split; [done|]. split; [done|].
  rewrite ids_app in Hnd. unfold ids in Hnd at 2. rewrite fmap_cons in Hnd.
  apply NoDup_app in Hnd as (_ & Hl1 & Hnd).
  apply NoDup_cons in Hnd as [Hl2 _].
  assert (Hni1 : i ∉ ids l1).
  { intros Hin. apply (Hl1 i Hin). rewrite Hi. apply elem_of_cons. by left. }
  assert (Hkeep : ∀ l, (i ∉ ids l) → filter (λ task, task.(id) ≠ i) l = l).
  { intros l Hni. apply filter_all. apply not_elem_of_ids in Hni.
    eapply Forall_impl; [exact Hni|]. done. }
  unfold remove. rewrite filter_app, filter_cons_False by (by intros ?).
  rewrite !Hkeep by (done || by rewrite <- Hi).
  f_equal. apply bool_decide_eq_true. rewrite !length_app. simpl. lia.
Qed.

Lemma remove_exactly_one_witness :
  ∃ l1 t l2, sample = l1 ++ t :: l2 ∧ t.(id) = "c3"
             ∧ remove "c3" sample = (true, l1 ++ l2).
Proof.
  apply (remove_exactly_one "c3" sample); by_evaluation.
Defined.

(** X7: removing the identifier a task has just been created under, when
    no stored task had it, gives back the collection as it was before the
    creation, and returns true. *)
Theorem create_then_remove (uuid : string) (now1 now2 : Z) (c : CreateData)
    (tasks : list Task) :
  (uuid ∉ ids tasks) →
  remove uuid (create uuid now1 now2 c tasks).2 = (true, tasks).
Proof.
  intros Hni. unfold remove, create. cbn [snd].
  rewrite filter_app, filter_cons_False by (by intros ?).
  rewrite filter_nil, app_nil_r, filter_all.
  - f_equal. apply bool_decide_eq_true. rewrite length_app. simpl. lia.
  - apply not_elem_of_ids in Hni. eapply Forall_impl; [exact Hni|]. done.
Qed.

Lemma create_then_remove_witness :
  remove "f6" (create "f6" 6000 6001 (mkCreateData "Book flights" "Lisbon")
                 sample).2
  = (true, sample).
Proof. apply create_then_remove. by_evaluation. Defined.

(** X8: repeating an update with the same body changes nothing but
    [updatedAt]: the second call gives the result and the collection that a
    single call at the later instant gives. The body has no [id] key. *)
Theorem update_twice (i : string) (d : PartialTask) (now now' : Z)
    (tasks : list Task) :
  p_id d = None →
  update i d now (update i d now' tasks).2 = update i d now tasks.
Proof.
  intros Hid.
  destruct (update_spec i d now' tasks)
    as [[_ ->]|(n & old & Hl & Ho & Hm & ->)]; [done|]. cbn [snd].
  assert (Hlt : (n < length tasks)%nat) by (by eapply lookup_lt_Some).
  rewrite (update_found i d now tasks n old) by done.
  rewrite (update_found i d now _ n (merge old d now')).
  - by rewrite merge_merge, list_insert_insert_eq.
  - by apply list_lookup_insert_eq.
  - by rewrite merge_id.
  - intros k y Hk Hkn. rewrite list_lookup_insert_ne in Hk by lia.
    by apply (Hm k).
Qed.

Lemma update_twice_witness :
  update "a1" (mkPartial None None None (Some COMPLETED) None None) 8000
    (update "a1" (mkPartial None None None (Some COMPLETED) None None) 7000
       sample).2
  = update "a1" (mkPartial None None None (Some COMPLETED) None None) 8000 sample.
Proof. by apply update_twice. Defined.

(** ** More of the listing *)

Section ListingMore.

Lemma append_assoc (a b c : string) : (a +:+ b) +:+ c = a +:+ b +:+ c.
Proof.
  induction a as [|x a IH]; [done|].
  change (String x ((a +:+ b) +:+ c) = String x (a +:+ b +:+ c)). by f_equal.
Qed.

Lemma getAll_total status_ title_ page_ limit_ (tasks : list Task) :
  total (getAll status_ title_ page_ limit_ tasks)
  = length (filtered_set status_ title_ tasks).
Proof. unfold getAll; simpl. by rewrite getAll_filteredTasks. Qed.

Lemma filtered_set_None (tasks : list Task) : filtered_set None None tasks = tasks.
Proof.
  unfold filtered_set. rewrite !filter_all; [done | by apply Forall_forall ..].
Qed.

Lemma contains_ci_lower (s t : string) :
  contains_ci s t ↔
  ∃ pre post, JS.toLowerCase s = pre +:+ JS.toLowerCase t +:+ post.
Proof. by rewrite <- includes_contains_ci, includes_spec. Qed.

Lemma contains_ci_trans (s t' t : string) :
  contains_ci s t' → contains_ci t' t → contains_ci s t.
Proof.
  rewrite !contains_ci_lower. intros (a & b & ->) (c & e & ->).
  exists (a +:+ c), (e +:+ b). by rewrite !append_assoc.
Qed.

Lemma filter_title_same_letters (t t' : string) (ts : list Task) :
  same_letters t t' → filter_title (Some t) ts = filter_title (Some t') ts.
Proof.
  intros H. pose proof (proj2 (toLowerCase_same_letters _ _) H) as Hl.
  destruct H; [done|]. unfold filter_title. cbn [JS.truthy]. by rewrite Hl.
Qed.

Lemma filter_narrow {A} (P Q : A → Prop) `{∀ x, Decision (P x)}
    `{∀ x, Decision (Q x)} (l : list A) :
  (∀ x, P x → Q x) → filter P l `sublist_of` filter Q l.
Proof.
  intros HPQ. induction l as [|x l IH]; [done|].
  destruct (decide (P x)) as [HP|HP].
  - rewrite !filter_cons_True by auto. by constructor.
  - rewrite (filter_cons_False P) by done.
    destruct (decide (Q x)).
    + rewrite filter_cons_True by done. by constructor.
    + by rewrite filter_cons_False by done.
Qed.

End ListingMore.

(** X9: with a limit that is not negative, no page of [getAll] holds more
    tasks than the limit, negative pages included; and a page numbered from
    1 holds what is left of the filtered set from its start, up to the
    limit: [min (limit, total - (page-1)*limit)], or nothing. *)
Theorem getAll_page_size status_ title_ (p L : Z) (tasks : list Task) :
  0 ≤ L →
  Z.of_nat (length (data (getAll status_ title_ (Some p) (Some L) tasks))) ≤ L
  ∧ (1 ≤ p →
       Z.of_nat (length (data (getAll status_ title_ (Some p) (Some L) tasks)))
       = Z.max 0 (Z.min L
           (Z.of_nat (total (getAll status_ title_ (Some p) (Some L) tasks))
            - (p - 1) * L))).
Proof.
  intros HL. rewrite getAll_total, getAll_data_Some.
  unfold JS.slice, JS.relative_index.
  rewrite length_take, length_drop.
  generalize (length (filtered_set status_ title_ tasks)). intros N.
  replace (p * L) with ((p - 1) * L + L) by lia.
  split.
  - generalize ((p - 1) * L). intros a.
    destruct (Z.ltb_spec a 0), (Z.ltb_spec (a + L) 0); lia.
  - intros Hp. assert (0 ≤ (p - 1) * L) by nia.
    generalize dependent ((p - 1) * L). intros a Ha.
    destruct (Z.ltb_spec a 0), (Z.ltb_spec (a + L) 0); lia.
Qed.

Lemma getAll_page_size_witness :
  Z.of_nat (length (data (getAll None None (Some 3) (Some 2) sample))) = 1.
Proof.
  destruct (getAll_page_size None None 3 2 sample ltac:(lia)) as [_ Hsize].
  rewrite Hsize by lia. reflexivity.
Defined.

(** X10: the case of the title asked for does not matter: two titles that
    have the same letters, place by place, give the same listing. *)
Theorem getAll_title_any_case status_ (t t' : string) page_ limit_
    (tasks : list Task) :
  same_letters t t' →
  getAll status_ (Some t) page_ limit_ tasks
  = getAll status_ (Some t') page_ limit_ tasks.
Proof.
  intros H. unfold getAll.
  by rewrite (filter_title_same_letters t t' _ H).
Qed.

Lemma getAll_title_any_case_witness :
  getAll None (Some "PROJ") None None sample
  = getAll None (Some "proj") None None sample.
Proof.
  apply getAll_title_any_case. by apply toLowerCase_same_letters.
Defined.

(** X11: a longer title asked for narrows the listing: when [t], lowered,
    occurs in [t'], lowered, which is the test the filter itself makes of a
    title, every task listed for [t'] is one that the filters keep for [t],
    and the total for [t'] is at most that for [t]. *)
Theorem getAll_title_narrows status_ (t t' : string) page_ limit_
    (tasks : list Task) :
  JS.includes (JS.toLowerCase t') (JS.toLowerCase t) = true →
  filter_title (Some t') (filter_status status_ tasks)
    `sublist_of` filter_title (Some t) (filter_status status_ tasks)
  ∧ (total (getAll status_ (Some t') page_ limit_ tasks)
     ≤ total (getAll status_ (Some t) page_ limit_ tasks))%nat
  ∧ ∀ task, task ∈ data (getAll status_ (Some t') page_ limit_ tasks) →
            task ∈ filter_title (Some t) (filter_status status_ tasks).
Proof.
  intros Hc%includes_contains_ci.
  assert (Hsub : filter_title (Some t') (filter_status status_ tasks)
                   `sublist_of` filter_title (Some t) (filter_status status_ tasks)).
  { rewrite !filter_title_matches. apply filter_narrow. simpl.
    intros task Ht'. by eapply contains_ci_trans. }
  split; [done|]. split.
  - by apply sublist_length.
  - intros task Hin. apply (sublist_subseteq _ _ Hsub).
    rewrite getAll_filteredTasks.
    eapply sublist_subseteq; [|exact Hin].
    rewrite getAll_data. apply slice_sublist.
Qed.

Lemma getAll_title_narrows_witness :
  (total (getAll None (Some "Project R") None None sample)
   ≤ total (getAll None (Some "proj") None None sample))%nat.
Proof.
  apply (getAll_title_narrows None "proj" "Project R" None None sample).
  reflexivity.
Defined.

(** X12: the two filters of [getAll] can be taken in either order: filtering
    on the title what the status filter kept is filtering on the status what
    the title filter kept. *)
Theorem getAll_filters_commute status_ title_ (tasks : list Task) :
  filter_title title_ (filter_status status_ tasks)
  = filter_status status_ (filter_title title_ tasks).
Proof.
  rewrite !filter_status_matches, !filter_title_matches.
  rewrite !list_filter_filter. apply list_filter_iff. intros task. tauto.
Qed.

(** X13: a task that has just been created shows in no listing by the
    status IN_PROGRESS or COMPLETED, which are as before the creation; it
    adds one to the total of the listing without filters, and is the last
    task of that listing. *)
Theorem create_then_getAll uuid (now1 now2 : Z) (c : CreateData)
    (tasks : list Task) :
  (∀ s title_ page_ limit_, s ≠ PENDING →
     getAll (Some s) title_ page_ limit_ (create uuid now1 now2 c tasks).2
     = getAll (Some s) title_ page_ limit_ tasks)
  ∧ (∀ page_ limit_,
       total (getAll None None page_ limit_ (create uuid now1 now2 c tasks).2)
       = S (total (getAll None None page_ limit_ tasks)))
  ∧ data (getAll None None (Some 1) (Some (Z.of_nat (S (length tasks))))
            (create uuid now1 now2 c tasks).2)
    = tasks ++ [(create uuid now1 now2 c tasks).1].
Proof.
  split; [|split].
  - intros s title_ page_ limit_ Hs. unfold getAll.
    assert (filter_status (Some s) (create uuid now1 now2 c tasks).2
            = filter_status (Some s) tasks) as ->; [|done].
    rewrite !filter_status_matches. simpl.
    rewrite filter_app, filter_cons_False by (simpl; congruence).
    by rewrite filter_nil, app_nil_r.
  - intros page_ limit_. rewrite !getAll_total, !filtered_set_None.
    simpl. rewrite length_app. simpl. lia.
  - rewrite getAll_data_Some, filtered_set_None. simpl.
    rewrite slice_interval by lia.
    rewrite drop_0, take_ge; [done|]. rewrite length_app. simpl. lia.
Qed.


(** * In front of the store: controller, middleware and routes *)

(** ** Numbers read from the query *)

(** The numbers the controller hands to [getAll] are doubles.  [parseInt]
    returns [NaN], an integer or an infinity, and so do the subtraction and
    the multiplication of [getAll] on such numbers: an integer that a double
    holds is [Int], and a result that no double holds is rounded to the
    nearest one that does.  The sign of a zero is not kept: [slice] and
    [JSON.stringify] read [-0] as [0]. *)
Module JSNumber.

Inductive Num :=
  | NaN
  | Int (z : Z)
  | Infinity (negative : bool).

(** The double nearest to the integer [a >= 0]: [a] itself when it has at
    most 53 bits; else its 53 leading bits [q], and one more when the bits
    [r] that are dropped come to more than half a unit of [q], or to half a
    unit with [q] odd. *)
Definition round_magnitude (a : Z) : Z :=
  let e := Z.log2 a - 52 in
  if e <=? 0 then a
  else
    let q := Z.shiftr a e in
    let r := a - Z.shiftl q e in
    let half := Z.shiftl 1 (e - 1) in
    let q' := if (half <? r) || ((r =? half) && Z.odd q) then q + 1 else q in
    Z.shiftl q' e.

(** From 2^1024 on a magnitude is that of an infinity. *)
Definition overflow : Z := 2 ^ 1024.

(** The Number value of the integer [z]. *)
Definition of_integer (z : Z) : Num :=
  let m := round_magnitude (Z.abs z) in
  if overflow <=? m then Infinity (z <? 0) else Int (Z.sgn z * m).

(** [a - b] *)
Definition sub (a b : Num) : Num :=
  match a, b with
  | NaN, _ | _, NaN => NaN
  | Int x, Int y => of_integer (x - y)
  | Int _, Infinity s => Infinity (negb s)
  | Infinity s, Int _ => Infinity s
  | Infinity s, Infinity s' => if bool_decide (s = s') then NaN else Infinity s
  end.

(** [a * b]: an infinity times zero is [NaN]. *)
Definition mul (a b : Num) : Num :=
  match a, b with
  | NaN, _ | _, NaN => NaN
  | Int x, Int y => of_integer (x * y)
  | Int x, Infinity s | Infinity s, Int x =>
      if x =? 0 then NaN else Infinity (xorb s (x <? 0))
  | Infinity s, Infinity s' => Infinity (xorb s s')
  end.

(** The index [slice] makes of an argument, for an array of [len] elements:
    [ToIntegerOrInfinity] reads [NaN] as 0; minus infinity is the start of
    the array and plus infinity its end. *)
Definition relative_index_num (len : Z) (n : Num) : Z :=
  match n with
  | NaN => JS.relative_index len 0
  | Int z => JS.relative_index len z
  | Infinity true => 0
  | Infinity false => len
  end.

(** [l.slice(start, end)] on such numbers. *)
Definition slice_num {A} (l : list A) (start end_ : Num) : list A :=
  let len := Z.of_nat (length l) in
  let from := relative_index_num len start in
  let final := relative_index_num len end_ in
  take (Z.to_nat (final - from)) (drop (Z.to_nat from) l).

(** White space and line ends [parseInt] skips at the start: tab, line
    feed, vertical tab, form feed, carriage return, space and no-break
    space. *)
Definition is_white_space (c : ascii) : bool :=
  let n := nat_of_ascii c in
  bool_decide (9 ≤ n ≤ 13)%nat || bool_decide (n = 32)%nat
  || bool_decide (n = 160)%nat.

Fixpoint trim_start (s : string) : string :=
  match s with
  | EmptyString => EmptyString
  | String c s' => if is_white_space c then trim_start s' else s
  end.

(** The value of a character as a digit of the radix: [0]..[9], then the
    letters in either case from 10 on. *)
Definition digit_value (radix : Z) (c : ascii) : option Z :=
  let n := Z.of_nat (nat_of_ascii c) in
  let v :=
    if bool_decide (48 ≤ n ≤ 57) then Some (n - 48)
    else if bool_decide (97 ≤ n ≤ 122) then Some (n - 87)
    else if bool_decide (65 ≤ n ≤ 90) then Some (n - 55)
    else None in
  match v with
  | Some d => if d <? radix then Some d else None
  | None => None
  end.

(** The integer the longest run of digits at the start of [s] stands for;
    [acc] is the value of the digits read so far, [None] before the first. *)
Fixpoint digits (radix : Z) (s : string) (acc : option Z) : option Z :=
  match s with
  | EmptyString => acc
  | String c s' =>
      match digit_value radix c with
      | Some d => digits radix s' (Some (default 0 acc * radix + d))
      | None => acc
      end
  end.

(** [parseInt(s)], without a radix: white space, a sign, [0x] or [0X] for
    radix 16 and radix 10 otherwise, then digits; [NaN] when there is no
    digit, and else the Number value of the integer the digits stand for.
    (Past the twentieth significant decimal digit the language lets an
    engine read the digits as zeros; V8 reads them.) *)
Definition parseInt (s : string) : Num :=
  let s1 := trim_start s in
  let '(sign, s2) :=
    match s1 with
    | String c r =>
        if decide (c = "-"%char) then (-1, r)
        else if decide (c = "+"%char) then (1, r)
        else (1, s1)
    | EmptyString => (1, s1)
    end in
  let '(radix, s3) :=
    match s2 with
    | String c (String x r) =>
        if decide (c = "0"%char ∧ (x = "x"%char ∨ x = "X"%char))
        then (16, r) else (10, s2)
    | _ => (10, s2)
    end in
  match digits radix s3 None with
  | Some m => of_integer (sign * m)
  | None => NaN
  end.

End JSNumber.

Import JSNumber.

Section NumberFacts.

Lemma overflow_beyond : 2 ^ 53 < overflow.
Proof. by vm_compute. Qed.

Lemma round_magnitude_exact (a : Z) :
  0 ≤ a < 2 ^ 53 → round_magnitude a = a.
Proof.
  intros Ha. unfold round_magnitude. cbv zeta.
  destruct (Z.leb_spec (Z.log2 a - 52) 0) as [|He]; [done|].
  assert (0 < a) by (destruct (decide (a = 0)) as [->|]; [simpl in He|]; lia).
  assert (Z.log2 a < 53) by (apply Z.log2_lt_pow2; lia). lia.
Qed.

Lemma round_magnitude_beyond (a : Z) :
  2 ^ 53 ≤ a → 2 ^ 53 ≤ round_magnitude a.
Proof.
  intros Ha. unfold round_magnitude. cbv zeta.
  destruct (Z.leb_spec (Z.log2 a - 52) 0) as [|He]; [done|].
  set (e := Z.log2 a - 52) in *.
  assert (Ha0 : 0 < a) by lia.
  destruct (Z.log2_spec a Ha0) as [Hlo _].
  replace (Z.log2 a) with (52 + e) in Hlo by lia.
  rewrite Z.pow_add_r in Hlo by lia.
  assert (Hpe : 2 ≤ 2 ^ e).
  { change 2 with (2 ^ 1) at 1. apply Z.pow_le_mono_r; lia. }
  assert (Hq : 2 ^ 52 ≤ Z.shiftr a e).
  { rewrite Z.shiftr_div_pow2 by lia.
    apply Z.div_le_lower_bound; lia. }
  rewrite Z.shiftl_mul_pow2 by lia.
  set (q := Z.shiftr a e) in *.
  assert (Hq' : q ≤ (if (Z.shiftl 1 (e - 1) <? a - Z.shiftl q e)
                          || ((a - Z.shiftl q e =? Z.shiftl 1 (e - 1)) && Z.odd q)
                     then q + 1 else q)).
  { destruct (_ || _); lia. }
  revert Hq'. generalize (if (Z.shiftl 1 (e - 1) <? a - Z.shiftl q e)
                          || ((a - Z.shiftl q e =? Z.shiftl 1 (e - 1)) && Z.odd q)
                     then q + 1 else q).
  intros q' Hq'. change (2 ^ 53) with (2 ^ 52 * 2). nia.
Qed.

(** An integer of less than 54 bits is a double. *)
Lemma of_integer_exact (z : Z) : Z.abs z < 2 ^ 53 → of_integer z = Int z.
Proof.
  intros Hz. unfold of_integer. cbv zeta.
  rewrite round_magnitude_exact by lia.
  pose proof overflow_beyond.
  destruct (Z.leb_spec overflow (Z.abs z)); [lia|].
  f_equal. destruct z; simpl; lia.
Qed.

(** Rounding keeps the side of zero and stays beyond 2^53. *)
Lemma of_integer_beyond (z : Z) :
  2 ^ 53 ≤ Z.abs z →
  of_integer z = Infinity (z <? 0)
  ∨ ∃ z', of_integer z = Int z' ∧ 2 ^ 53 ≤ Z.abs z' ∧ (z < 0 ↔ z' < 0).
Proof.
  intros Hz. unfold of_integer. cbv zeta.
  pose proof (round_magnitude_beyond _ Hz) as Hm.
  destruct (Z.leb_spec overflow (round_magnitude (Z.abs z))); [by left|].
  right. eexists. split; [done|].
  revert Hm. generalize (round_magnitude (Z.abs z)). intros m Hm.
  destruct z; simpl in *; lia.
Qed.

(** What the arithmetic of doubles makes of an integer is as good an index
    as the integer, for an array of no more than 2^53 elements. *)
Lemma relative_index_of_integer (len z : Z) :
  0 ≤ len ≤ 2 ^ 53 →
  relative_index_num len (of_integer z) = JS.relative_index len z.
Proof.
  intros Hlen. destruct (decide (Z.abs z < 2 ^ 53)) as [Hz|Hz].
  { by rewrite of_integer_exact. }
  destruct (of_integer_beyond z) as [->|(z' & -> & Hz' & Hs)]; [lia|..];
    cbn [relative_index_num]; unfold JS.relative_index.
  - destruct (Z.ltb_spec z 0); lia.
  - destruct (Z.ltb_spec z 0), (Z.ltb_spec z' 0); lia.
Qed.

(** What the arithmetic of doubles has for the integer [y]: [y] itself, or
    beyond 2^53 an infinity or an integer on the same side of zero. *)
Definition stands_for (n : Num) (y : Z) : Prop :=
  n = Int y
  ∨ (2 ^ 53 ≤ Z.abs y
     ∧ (n = Infinity (y <? 0)
        ∨ ∃ x, n = Int x ∧ 2 ^ 53 ≤ Z.abs x ∧ (y < 0 ↔ x < 0))).

Lemma of_integer_stands_for (z : Z) : stands_for (of_integer z) z.
Proof.
  destruct (decide (Z.abs z < 2 ^ 53)) as [Hz|Hz].
  - left. by apply of_integer_exact.
  - right. split; [lia|]. apply of_integer_beyond. lia.
Qed.

Lemma relative_index_mul (len y L : Z) (n : Num) :
  0 ≤ len ≤ 2 ^ 53 → stands_for n y →
  relative_index_num len (mul n (Int L)) = JS.relative_index len (y * L).
Proof.
  intros Hlen [->|[Hy [->|(x & -> & Hx & Hs)]]]; cbn [mul].
  - by apply relative_index_of_integer.
  - destruct (Z.eqb_spec L 0) as [->|HL]; simpl.
    + by rewrite Z.mul_0_r.
    + unfold JS.relative_index.
      destruct (Z.ltb_spec y 0), (Z.ltb_spec L 0), (Z.ltb_spec (y * L) 0);
        simpl; nia.
  - rewrite relative_index_of_integer by done.
    destruct (Z.eqb_spec L 0) as [->|HL]; [by rewrite !Z.mul_0_r|].
    unfold JS.relative_index.
    destruct (Z.ltb_spec (x * L) 0), (Z.ltb_spec (y * L) 0); nia.
Qed.

(** The page of [getAll] computed on doubles is the page computed on the
    integers, whatever the page and the limit. *)
Lemma slice_num_page {A} (l : list A) (p L : Z) :
  Z.of_nat (length l) ≤ 2 ^ 53 →
  slice_num l (mul (sub (Int p) (Int 1)) (Int L)) (mul (Int p) (Int L))
  = JS.slice l ((p - 1) * L) (p * L).
Proof.
  intros Hlen. unfold slice_num, JS.slice. cbv zeta.
  assert (Hl : 0 ≤ Z.of_nat (length l) ≤ 2 ^ 53) by lia.
  assert (relative_index_num (Z.of_nat (length l)) (mul (Int p) (Int L))
          = JS.relative_index (Z.of_nat (length l)) (p * L)) as ->.
  { by apply relative_index_of_integer. }
  assert (relative_index_num (Z.of_nat (length l))
            (mul (sub (Int p) (Int 1)) (Int L))
          = JS.relative_index (Z.of_nat (length l)) ((p - 1) * L)) as ->; [|done].
  cbn [sub]. apply relative_index_mul; [done | apply of_integer_stands_for].
Qed.

End NumberFacts.

(** ** The query of a request *)

(** A value of [req.query]: a string, and when the key is repeated or is
    written with brackets an array or an object.  What an object holds has
    no part in what follows. *)
#[warnings="-register-all"] Inductive QueryValue :=
  | QString (s : string)
  | QArray (l : list QueryValue)
  | QObject.

(** [ToBoolean]: an array and an object are truthy. *)
Definition truthy_value (q : QueryValue) : bool :=
  match q with
  | QString s => JS.truthy s
  | _ => true
  end.

(** [l.join(",")] *)
Fixpoint join (l : list string) : string :=
  match l with
  | [] => ""
  | s :: l' =>
      match l' with
      | [] => s
      | _ :: _ => s +:+ "," +:+ join l'
      end
  end.

(** [ToString], which [parseInt] applies to its argument: the elements of
    an array are joined with commas. *)
Fixpoint ToString (q : QueryValue) : string :=
  match q with
  | QString s => s
  | QArray l => join (List.map ToString l)
  | QObject => "[object Object]"
  end.

(** [a === q] for a string [a]: false when [q] is not a string. *)
Definition strict_equals (a : string) (q : QueryValue) : bool :=
  match q with
  | QString s => bool_decide (a = s)
  | _ => false
  end.

(** [q.toLowerCase()]: only a string has the method, and calling it on an
    array or an object throws a [TypeError], which is [None]. *)
Definition toLowerCase_value (q : QueryValue) : option string :=
  match q with
  | QString s => Some (JS.toLowerCase s)
  | _ => None
  end.

(** [l.filter(p)] with a [p] that can throw: the first call that throws
    ends the filter. *)
Fixpoint filter_throwing {A} (p : A → option bool) (l : list A)
  : option (list A) :=
  match l with
  | [] => Some []
  | x :: l' =>
      b ← p x;
      r ← filter_throwing p l';
      Some (if b : bool then x :: r else r)
  end.

(** ** [getAll] as the controller calls it *)

(** The controller passes [req.query.status as TaskStatus] and
    [req.query.title as string]: the casts check nothing when the program
    runs, so [getAll] is given the values of the query as they are, and
    numbers that are doubles.  The lines of [getAll] on these values: *)
Record NumListing := mkNumListing {
  n_total : nat;
  n_page : Num;
  n_limit : Num;
  n_data : list Task
}.

(** [if (status) filteredTasks = filteredTasks.filter(task => task.status === status)] *)
Definition filter_status_value (status_ : option QueryValue) (ts : list Task)
  : list Task :=
  match status_ with
  | Some q =>
      if truthy_value q
      then filter (λ task : Task,
             strict_equals (TaskStatus_value task.(status)) q = true) ts
      else ts
  | None => ts
  end.

(** [if (title) filteredTasks = filteredTasks.filter(task =>
      task.title.toLowerCase().includes(title.toLowerCase()))] *)
Definition filter_title_value (title_ : option QueryValue) (ts : list Task)
  : option (list Task) :=
  match title_ with
  | Some q =>
      if truthy_value q
      then filter_throwing (λ task : Task,
             t ← toLowerCase_value q;
             Some (JS.includes (JS.toLowerCase task.(title)) t)) ts
      else Some ts
  | None => Some ts
  end.

(** [getAll(status, title, page, limit)]; [None] when it throws. *)
Definition getAll_num (status_ title_ : option QueryValue)
    (page limit : Num) (tasks : list Task) : option NumListing :=
  filteredTasks ← filter_title_value title_ (filter_status_value status_ tasks);
  let startIndex := mul (sub page (Int 1)) limit in
  let endIndex := mul page limit in
  let paginatedTasks := slice_num filteredTasks startIndex endIndex in
  Some {| n_total := length filteredTasks;
          n_page := page;
          n_limit := limit;
          n_data := paginatedTasks |}.

(** A listing of [getAll] on integers, its numbers seen as [Num]. *)
Definition num_listing (l : Listing) : NumListing :=
  {| n_total := total l; n_page := Int (page l); n_limit := Int (limit l);
     n_data := data l |}.

(** ** Responses: [utils/errorHandler.ts] *)

(** What [res.json(...)] or [res.send()] is given. The text of a validation
    message is Joi's and is not modelled, nor is the page Express writes for
    an error no handler caught. *)
Inductive Body :=
  | JsonTask (t : Task)
  | JsonListing (l : NumListing)
  | JsonError (success : bool) (message : string)
  | JsonValidation
  | NoBody
  | ErrorPage.

Record Response := mkResponse {
  statusCode : Z;
  body : Body
}.

(** [sendErrorResponse(res, statusCode, message)]:
    [{ success: false, error: { message } }] under the status code. *)
Definition sendErrorResponse (statusCode : Z) (message : string) : Response :=
  mkResponse statusCode (JsonError false message).

(** An exception that leaves a handler: [app.ts] installs no error handler,
    and the one of Express answers 500. *)
Definition uncaught : Response := mkResponse 500 ErrorPage.

(** ** The controller: [controllers/task.controller.ts] *)

Module TaskController.

(** [createTask]: the title and the description of the body go to [create];
    201 with the new task. *)
Definition createTask (e : Env) (body : CreateData) (tasks : list Task)
  : Response * list Task :=
  let r := create (env_uuid e) (env_now1 e) (env_now2 e)
             (mkCreateData (c_title body) (c_description body)) tasks in
  (mkResponse 201 (JsonTask r.1), r.2).

(** [q ? parseInt(q as string) : dflt] on a query parameter that may be
    absent: the empty string is falsy, and [parseInt] makes a string of what
    is not one. *)
Definition query_number (q : option QueryValue) (dflt : Z) : Num :=
  match q with
  | Some v => if truthy_value v then parseInt (ToString v) else Int dflt
  | None => Int dflt
  end.

(** [getAllTasks]: 200 with what [getAll] returns. *)
Definition getAllTasks (status_ title_ page limit : option QueryValue)
    (tasks : list Task) : Response :=
  match getAll_num status_ title_ (query_number page 1)
          (query_number limit 10) tasks with
  | Some tasks' => mkResponse 200 (JsonListing tasks')
  | None => uncaught
  end.

(** [getTaskById]: 404 when [getById] returns [undefined], else 200 with the
    task. *)
Definition getTaskById (i : string) (tasks : list Task) : Response :=
  match getById i tasks with
  | None => sendErrorResponse 404 "Task not found"
  | Some task => mkResponse 200 (JsonTask task)
  end.

(** [updateTask]: the whole body goes to [update]; 404 when it returns
    [null], else 200 with the updated task. *)
Definition updateTask (e : Env) (i : string) (body : PartialTask)
    (tasks : list Task) : Response * list Task :=
  let r := update i body (env_now1 e) tasks in
  match r.1 with
  | None => (sendErrorResponse 404 "Task not found", r.2)
  | Some updatedTask => (mkResponse 200 (JsonTask updatedTask), r.2)
  end.

(** [deleteTask]: 404 when [remove] returns false, else 204 and no body. *)
Definition deleteTask (i : string) (tasks : list Task) : Response * list Task :=
  let r := remove i tasks in
  if r.1 then (mkResponse 204 NoBody, r.2)
  else (sendErrorResponse 404 "Task not found", r.2).

End TaskController.

Import TaskController.

(** ** The middleware and the routes *)

(** [validate(schema)]: 400 with Joi's message when the body does not fit,
    and the next handler is not called; [next()] otherwise. *)
Definition validate {B} (schema : B → bool) (body : B)
    (next : list Task → Response * list Task) (tasks : list Task)
  : Response * list Task :=
  if schema body then next tasks else (mkResponse 400 JsonValidation, tasks).

(** A request to [/tasks], as the handlers read it: the body of a POST or a
    PUT with its keys, the query of a GET with its values. The bodies are
    the JSON objects whose values have the types of [Task]; any other body
    is refused by the schema with 400, as the bodies refused here are. The
    identifier is the segment of the path after [/tasks/], which is never
    empty in a request that reaches one of the three routes [/:id]. *)
Inductive HttpRequest :=
  | POST (body : CreateData)
  | GET_list (status_ title_ page limit : option QueryValue)
  | GET_one (i : string)
  | PUT (i : string) (body : PartialTask)
  | DELETE (i : string).

(** [routes/task.routes.ts]: the handlers of each route, in their order. *)
Definition router (r : HttpRequest) (e : Env) (tasks : list Task)
  : Response * list Task :=
  match r with
  | POST body => validate createTaskSchema body (createTask e body) tasks
  | GET_list status_ title_ page limit =>
      (getAllTasks status_ title_ page limit tasks, tasks)
  | GET_one i => (getTaskById i tasks, tasks)
  | PUT i body => validate updateTaskSchema body (updateTask e i body) tasks
  | DELETE i => deleteTask i tasks
  end.

(** The store after a sequence of requests. *)
Fixpoint serve (rs : list (HttpRequest * Env)) (tasks : list Task) : list Task :=
  match rs with
  | [] => tasks
  | (r, e) :: rs' => serve rs' (router r e tasks).2
  end.

(** The bounds of the two schemas on a stored task. *)
Definition fields_in_bounds (t : Task) : Prop :=
  (3 ≤ String.length t.(title) ≤ 50)%nat
  ∧ (3 ≤ String.length t.(description) ≤ 255)%nat.

(** The identifier of a request to one of the routes [/:id] is a segment of
    the path. *)
Definition id_in_path (r : HttpRequest) : Prop :=
  match r with
  | GET_one i | PUT i _ | DELETE i => i ≠ ""
  | _ => True
  end.

(** The values of a query whose keys are neither repeated nor written with
    brackets: a status that is one of the three, a title that is a string. *)
Definition status_value (status_ : option TaskStatus) : option QueryValue :=
  (λ s, QString (TaskStatus_value s)) <$> status_.

Definition title_value (title_ : option string) : option QueryValue :=
  QString <$> title_.

(** ** Facts about the values of the query *)

Section QueryFacts.

Implicit Types (tasks ts : list Task) (q : QueryValue).

Lemma TaskStatus_value_inj (a b : TaskStatus) :
  TaskStatus_value a = TaskStatus_value b → a = b.
Proof. by destruct a, b. Qed.

Lemma filter_throwing_total {A} (f : A → bool) (l : list A) :
  filter_throwing (λ x, Some (f x)) l = Some (filter (λ x, f x = true) l).
Proof.
  induction l as [|x l IH]; [done|]. cbn [filter_throwing]. rewrite IH. simpl.
  rewrite filter_cons. by destruct (f x).
Qed.

Lemma filter_throwing_throws {A} (l : list A) :
  filter_throwing (λ _, None) l = match l with [] => Some [] | _ => None end.
Proof. by destruct l. Qed.

(** A status that is one of the three is filtered on as [getAll] declares
    it. *)
Lemma filter_status_value_typed (status_ : option TaskStatus) ts :
  filter_status_value (status_value status_) ts = filter_status status_ ts.
Proof.
  destruct status_ as [s|]; [|done]. simpl.
  rewrite truthy_TaskStatus_value. apply list_filter_iff. intros task.
  rewrite bool_decide_eq_true. split; [apply TaskStatus_value_inj | by intros ->].
Qed.

(** A status that is not a string, or is none of the three, keeps no
    task. *)
Lemma filter_status_value_none q ts :
  truthy_value q = true →
  (∀ s : TaskStatus, q ≠ QString (TaskStatus_value s)) →
  filter_status_value (Some q) ts = [].
Proof.
  intros Hq Hne. simpl. rewrite Hq.
  induction ts as [|task ts IH]; [done|].
  rewrite filter_cons_False; [done|].
  destruct q as [s| |]; simpl; try done.
  rewrite bool_decide_eq_true. intros <-. by apply (Hne task.(status)).
Qed.

(** A title that is a string is filtered on as [getAll] declares it. *)
Lemma filter_title_value_typed (title_ : option string) ts :
  filter_title_value (title_value title_) ts = Some (filter_title title_ ts).
Proof.
  destruct title_ as [t|]; [|done]. simpl.
  destruct (JS.truthy t); [|done]. apply filter_throwing_total.
Qed.

(** A title that is not a string makes [getAll] throw at the first task it
    is compared with. *)
Lemma filter_title_value_throws q ts :
  (∀ s, q ≠ QString s) →
  filter_title_value (Some q) ts
  = match ts with [] => Some [] | _ => None end.
Proof.
  intros Hq. destruct q as [s| |]; [by destruct (Hq s) | ..]; simpl;
    apply filter_throwing_throws.
Qed.

Lemma filter_title_value_sublist title_ ts ts' :
  filter_title_value title_ ts = Some ts' → ts' `sublist_of` ts.
Proof.
  destruct title_ as [q|]; simpl; [|by intros [= <-]].
  destruct (truthy_value q); [|by intros [= <-]].
  revert ts'. induction ts as [|task ts IH]; intros ts'; simpl.
  { by intros [= <-]. }
  destruct (toLowerCase_value q) as [t|]; simpl; [|done].
  destruct (filter_throwing _ ts) as [r|]; simpl; [|done].
  intros [= <-]. specialize (IH r eq_refl).
  destruct (JS.includes _ t); [by apply sublist_skip | by apply sublist_cons].
Qed.

Lemma filter_status_value_sublist status_ ts :
  filter_status_value status_ ts `sublist_of` ts.
Proof.
  destruct status_ as [q|]; simpl; [|done].
  destruct (truthy_value q); [apply sublist_filter | done].
Qed.

(** [getAll] reads nothing but the filtered tasks and the two numbers. *)
Lemma getAll_num_Some status_ title_ (page limit : Num) tasks l :
  getAll_num status_ title_ page limit tasks = Some l →
  ∃ filteredTasks,
    filter_title_value title_ (filter_status_value status_ tasks)
    = Some filteredTasks
    ∧ filteredTasks `sublist_of` tasks
    ∧ l = {| n_total := length filteredTasks; n_page := page; n_limit := limit;
             n_data := slice_num filteredTasks (mul (sub page (Int 1)) limit)
                         (mul page limit) |}.
Proof.
  unfold getAll_num.
  destruct (filter_title_value _ _) as [ft|] eqn:Hft; simpl; [|done].
  intros [= <-]. exists ft. split; [done|]. split; [|done].
  etrans; [by eapply filter_title_value_sublist|].
  apply filter_status_value_sublist.
Qed.

(** Whether [getAll] throws: the title is an array or an object and the
    status has kept a task. *)
Lemma getAll_num_None status_ title_ (page limit : Num) tasks :
  getAll_num status_ title_ page limit tasks = None
  ↔ ∃ q, title_ = Some q ∧ (∀ s, q ≠ QString s)
         ∧ filter_status_value status_ tasks ≠ [].
Proof.
  unfold getAll_num. split.
  - destruct title_ as [q|]; [|done].
    assert (Hq : (∃ s, q = QString s) ∨ ∀ s, q ≠ QString s).
    { destruct q as [s| |]; [left; by exists s | by right ..]. }
    destruct Hq as [[s ->]|Hq].
    + change (Some (QString s)) with (title_value (Some s)).
      by rewrite filter_title_value_typed.
    + rewrite filter_title_value_throws by done.
      destruct (filter_status_value status_ tasks); [done|].
      intros _. by exists q.
  - intros (q & -> & Hq & Hne). rewrite filter_title_value_throws by done.
    by destruct (filter_status_value status_ tasks).
Qed.

(** With a status and a title as [getAll] declares them, and with integers
    for the page and the limit, [getAll] as the controller calls it is
    [getAll] on the integers: the rounding of the two products beyond 2^53
    changes no index of an array, which has fewer than 2^32 elements. *)
Lemma getAll_num_typed (status_ : option TaskStatus) (title_ : option string)
    (p L : Z) tasks :
  Z.of_nat (length tasks) < 2 ^ 32 →
  getAll_num (status_value status_) (title_value title_) (Int p) (Int L) tasks
  = Some (num_listing (getAll status_ title_ (Some p) (Some L) tasks)).
Proof.
  intros Hlen. unfold getAll_num.
  rewrite filter_status_value_typed, filter_title_value_typed. simpl.
  f_equal. unfold num_listing, getAll. simpl. f_equal.
  apply slice_num_page.
  rewrite getAll_filteredTasks.
  pose proof (sublist_length _ _ (filtered_set_sublist status_ title_ tasks)).
  lia.
Qed.

Lemma relative_index_num_bounds (len : Z) (n : Num) :
  0 ≤ len → 0 ≤ relative_index_num len n ≤ len.
Proof.
  intros Hlen. destruct n as [|z|[|]]; simpl; unfold JS.relative_index;
    try destruct (Z.ltb_spec z 0); simpl; lia.
Qed.

(** When the page or the limit is not a number the page is empty. *)
Lemma slice_num_NaN {A} (l : list A) (page limit : Num) :
  page = NaN ∨ limit = NaN →
  slice_num l (mul (sub page (Int 1)) limit) (mul page limit) = [].
Proof.
  intros Hnan. assert (mul page limit = NaN) as ->.
  { destruct Hnan as [-> | ->]; [done | by destruct page]. }
  unfold slice_num. cbv zeta.
  pose proof (relative_index_num_bounds (Z.of_nat (length l))
                (mul (sub page (Int 1)) limit) ltac:(lia)) as Hfrom.
  pose proof (relative_index_num_bounds (Z.of_nat (length l)) NaN ltac:(lia))
    as Hfinal.
  assert (relative_index_num (Z.of_nat (length l)) NaN = 0) as ->.
  { simpl. unfold JS.relative_index. simpl. lia. }
  replace (Z.to_nat _) with 0%nat; [done|]. lia.
Qed.

Lemma parseInt_no_digit (c : ascii) (s : string) :
  is_white_space c = false → c ≠ "-"%char → c ≠ "+"%char →
  digit_value 10 c = None →
  parseInt (String c s) = NaN.
Proof.
  intros Hw Hm Hp Hd. unfold parseInt. cbn [trim_start]. rewrite Hw.
  rewrite !decide_False by done.
  assert (c ≠ "0"%char) by (by intros ->).
  destruct s as [|x s]; cbn [digits]; rewrite ?decide_False by tauto;
    cbn [digits]; by rewrite Hd.
Qed.

End QueryFacts.

(** ** Facts about the routes *)

Section RouterFacts.

Implicit Types (r : HttpRequest) (e : Env) (tasks : list Task) (i : string).

Lemma getTaskById_found i tasks :
  getTaskById i tasks
  = match getById i tasks with
    | Some task => mkResponse 200 (JsonTask task)
    | None => mkResponse 404 (JsonError false "Task not found")
    end.
Proof. unfold getTaskById. by destruct (getById i tasks). Qed.

Lemma deleteTask_store i tasks : (deleteTask i tasks).2 = (remove i tasks).2.
Proof. unfold deleteTask. by destruct (remove i tasks).1. Qed.

Lemma updateTask_store e i (b : PartialTask) tasks :
  (updateTask e i b tasks).2 = (update i b (env_now1 e) tasks).2.
Proof. unfold updateTask. by destruct (update i b (env_now1 e) tasks).1. Qed.

Lemma createTaskSchema_bounds (b : CreateData) :
  createTaskSchema b = true →
  (3 ≤ String.length (c_title b) ≤ 50)%nat
  ∧ (3 ≤ String.length (c_description b) ≤ 255)%nat.
Proof.
  unfold createTaskSchema. by rewrite andb_true_iff, !bool_decide_eq_true.
Qed.

Lemma updateTaskSchema_bounds (b : PartialTask) :
  updateTaskSchema b = true →
  only_schema_keys b
  ∧ (∀ s, p_title b = Some s → (3 ≤ String.length s ≤ 50)%nat)
  ∧ (∀ s, p_description b = Some s → (3 ≤ String.length s ≤ 255)%nat).
Proof.
  unfold updateTaskSchema, opt_length_between.
  rewrite !andb_true_iff, bool_decide_eq_true.
  intros [[[Hk Ht] Hd] _]. split; [done|]. split.
  - intros s Hs. rewrite Hs in Ht. by apply bool_decide_eq_true in Ht.
  - intros s Hs. rewrite Hs in Hd. by apply bool_decide_eq_true in Hd.
Qed.

Lemma router_fields r e tasks :
  Forall fields_in_bounds tasks →
  Forall fields_in_bounds (router r e tasks).2.
Proof.
  intros Hall. destruct r as [b| | |i b|i]; simpl; try done.
  - unfold validate. destruct (createTaskSchema b) eqn:Hs; [|done].
    apply createTaskSchema_bounds in Hs. simpl.
    apply Forall_app. split; [done|]. by constructor.
  - unfold validate. destruct (updateTaskSchema b) eqn:Hs; [|done].
    apply updateTaskSchema_bounds in Hs as (_ & Ht & Hd).
    rewrite updateTask_store.
    destruct (update_spec i b (env_now1 e) tasks)
      as [[_ ->]|(n & old & Hl & _ & _ & ->)]; [done|]. simpl.
    apply Forall_insert; [done|].
    eapply Forall_lookup in Hall as [Hot Hod]; [|exact Hl].
    split; simpl.
    + destruct (p_title b) as [s|]; [by apply Ht | done].
    + destruct (p_description b) as [s|]; [by apply Hd | done].
  - rewrite deleteTask_store. simpl.
    apply Forall_forall. intros t [_ Ht]%list_elem_of_filter.
    by eapply Forall_forall in Hall.
Qed.

Lemma serve_fields (rs : list (HttpRequest * Env)) tasks :
  Forall fields_in_bounds tasks → Forall fields_in_bounds (serve rs tasks).
Proof.
  revert tasks. induction rs as [|[r e] rs IH]; intros tasks Hall; simpl;
    [done|]. by apply IH, router_fields.
Qed.

(** The listing answers 500 when [getAll] throws, and 200 when not. *)
Lemma getAllTasks_statusCode (status_ title_ page limit : option QueryValue)
    tasks :
  statusCode (getAllTasks status_ title_ page limit tasks)
  = match title_, filter_status_value status_ tasks with
    | Some (QArray _), _ :: _ | Some QObject, _ :: _ => 500
    | _, _ => 200
    end.
Proof.
  unfold getAllTasks, getAll_num.
  destruct title_ as [[s|l|]|].
  - change (Some (QString s)) with (title_value (Some s)).
    by rewrite filter_title_value_typed.
  - rewrite filter_title_value_throws by done.
    by destruct (filter_status_value status_ tasks).
  - rewrite filter_title_value_throws by done.
    by destruct (filter_status_value status_ tasks).
  - done.
Qed.

(** The status code of each route, from the body, the query and the stored
    tasks. *)
Lemma router_statusCode r e tasks :
  statusCode (router r e tasks).1
  = match r with
    | POST b => if createTaskSchema b then 201 else 400
    | GET_list status_ title_ _ _ =>
        match title_, filter_status_value status_ tasks with
        | Some (QArray _), _ :: _ | Some QObject, _ :: _ => 500
        | _, _ => 200
        end
    | GET_one i => if decide (i ∈ ids tasks) then 200 else 404
    | PUT i b =>
        if updateTaskSchema b
        then if decide (i ∈ ids tasks) then 200 else 404
        else 400
    | DELETE i => if decide (i ∈ ids tasks) then 204 else 404
    end.
Proof.
  destruct r as [b|status_ title_ page limit|i|i b|i]; simpl.
  - unfold validate. by destruct (createTaskSchema b).
  - apply getAllTasks_statusCode.
  - rewrite getTaskById_found.
    destruct (getById i tasks) eqn:Hg, (decide (i ∈ ids tasks)) as [Hin|Hni];
      try done.
    + apply getById_None in Hni. congruence.
    + by apply getById_None in Hg.
  - unfold validate. destruct (updateTaskSchema b); [|done].
    unfold updateTask.
    destruct ((update i b (env_now1 e) tasks).1) eqn:Hu,
      (decide (i ∈ ids tasks)) as [Hin|Hni]; try done.
    + apply (update_None_iff i b (env_now1 e)) in Hni. congruence.
    + by apply update_None_iff in Hu.
  - unfold deleteTask.
    destruct ((remove i tasks).1) eqn:Hr, (decide (i ∈ ids tasks)) as [Hin|Hni];
      try done.
    + apply remove_true in Hr. done.
    + apply remove_true in Hin. congruence.
Qed.

End RouterFacts.

(** Requests as they come to the routes. *)
Definition sample_http : list (HttpRequest * Env) :=
  [ (POST (mkCreateData "Buy milk" "2% milk"), mkEnv "a1" 1000 1000);
    (POST (mkCreateData "ab" "too short a title"), mkEnv "b2" 2000 2000);
    (PUT "a1" (mkPartial None (Some "Buy oat milk") None None None None),
     mkEnv "" 3000 3000);
    (PUT "a1" (mkPartial None (Some "x") None None None None), mkEnv "" 4000 4000);
    (GET_list None None (Some (QString "abc")) None, mkEnv "" 5000 5000);
    (DELETE "zz", mkEnv "" 6000 6000) ].

(** X14: whatever requests are served from the empty store, every stored
    task has a title of 3 to 50 characters and a description of 3 to 255:
    the store checks nothing, the two schemas in front of it do. *)
Theorem stored_fields_in_bounds (rs : list (HttpRequest * Env)) :
  Forall fields_in_bounds (serve rs initial).
Proof. apply serve_fields. constructor. Qed.

(** X15: a request that is answered with an error, 400 or 404 (or the 500
    of a listing that throws), leaves the collection as it was. *)
Theorem error_changes_nothing (r : HttpRequest) (e : Env) (tasks : list Task) :
  400 ≤ statusCode (router r e tasks).1 → (router r e tasks).2 = tasks.
Proof.
  destruct r as [b| |i|i b|i]; simpl; try done.
  - unfold validate. destruct (createTaskSchema b); [simpl; lia | done].
  - unfold validate. destruct (updateTaskSchema b); [|done].
    unfold updateTask.
    destruct ((update i b (env_now1 e) tasks).1) eqn:Hu; [simpl; lia|].
    intros _. apply update_None_iff in Hu.
    destruct (update_spec i b (env_now1 e) tasks)
      as [[_ ->]|(n & old & Hl & Ho & _ & _)]; [done|].
    destruct Hu. apply elem_of_ids. exists old.
    split; [by eapply list_elem_of_lookup_2 | done].
  - unfold deleteTask. destruct ((remove i tasks).1) eqn:Hr; [simpl; lia|].
    intros _. cbn [snd].
    assert (Hni : i ∉ ids tasks).
    { intros Hin%remove_true. congruence. }
    by rewrite (remove_unstored i tasks Hni).
Qed.

Lemma error_changes_nothing_witness :
  (router (PUT "zz" (mkPartial None None None (Some COMPLETED) None None))
     (mkEnv "" 7000 7000) sample).2
  = sample.
Proof. apply error_changes_nothing. vm_compute. discriminate. Defined.

(** A title key that is repeated makes an array of the title: with a task
    to compare it with, [getAll] throws and the answer is 500; with none,
    because the store is empty or because no task has the status asked for,
    the answer is 200. *)
Example getAllTasks_repeated_title :
  let twice := Some (QArray [QString "milk"; QString "report"]) in
  getAllTasks None twice None None sample = uncaught
  ∧ getAllTasks (Some (QString "PENDING")) twice None None sample = uncaught
  ∧ getAllTasks None twice None None []
    = mkResponse 200 (JsonListing (mkNumListing 0 (Int 1) (Int 10) []))
  ∧ getAllTasks (Some (QString "DONE")) twice None None sample
    = mkResponse 200 (JsonListing (mkNumListing 0 (Int 1) (Int 10) [])).
Proof. by vm_compute. Qed.

(** X16: the status code of every route, for a request whose identifier, if
    it has one, is a segment of the path: POST answers 201 when the body
    fits its schema and 400 when not; the listing answers 200, and 500 when
    the title of the query is an array or an object and the status of the
    query has kept a task for [getAll] to compare it with; GET, PUT and
    DELETE of an identifier answer 404 exactly when no stored task has it,
    PUT only after its body passed (a body that does not fit is answered 400
    whether the identifier is stored or not), and otherwise 200, 200 and
    204. The 404 always carries
    [{ success: false, error: { message: "Task not found" } }], and nothing
    else does. *)
Theorem router_status (r : HttpRequest) (e : Env) (tasks : list Task) :
  id_in_path r →
  statusCode (router r e tasks).1
  = match r with
    | POST b => if createTaskSchema b then 201 else 400
    | GET_list status_ title_ _ _ =>
        match title_, filter_status_value status_ tasks with
        | Some (QArray _), _ :: _ | Some QObject, _ :: _ => 500
        | _, _ => 200
        end
    | GET_one i => if decide (i ∈ ids tasks) then 200 else 404
    | PUT i b =>
        if updateTaskSchema b
        then if decide (i ∈ ids tasks) then 200 else 404
        else 400
    | DELETE i => if decide (i ∈ ids tasks) then 204 else 404
    end
  ∧ (statusCode (router r e tasks).1 = 404
     ↔ body (router r e tasks).1 = JsonError false "Task not found").
Proof.
  intros _. split; [apply router_statusCode|].
  destruct r as [b|status_ title_ page limit|i|i b|i]; simpl.
  - unfold validate. by destruct (createTaskSchema b).
  - unfold getAllTasks. by destruct (getAll_num _ _ _ _ _).
  - rewrite getTaskById_found. by destruct (getById i tasks).
  - unfold validate. destruct (updateTaskSchema b); [|done].
    unfold updateTask. by destruct ((update i b (env_now1 e) tasks).1).
  - unfold deleteTask. by destruct ((remove i tasks).1).
Qed.

Lemma router_status_witness :
  statusCode (router (GET_list None (Some (QArray [QString "a"; QString "b"]))
                        None None) (mkEnv "" 0 0) sample).1 = 500
  ∧ statusCode (router (DELETE "zz") (mkEnv "" 0 0) sample).1 = 404.
Proof.
  split.
  - by rewrite (proj1 (router_status (GET_list None
                         (Some (QArray [QString "a"; QString "b"])) None None)
                         (mkEnv "" 0 0) sample I)).
  - rewrite (proj1 (router_status (DELETE "zz") (mkEnv "" 0 0) sample
                      ltac:(done))).
    by rewrite decide_False by by_evaluation.
Defined.

(** X17: a task that POST has created, under an identifier no stored task
    had, is what GET of that identifier then answers, with 200. *)
Theorem post_then_get (b : CreateData) (e e' : Env) (tasks : list Task) :
  createTaskSchema b = true → (env_uuid e ∉ ids tasks) →
  ∃ t, (router (POST b) e tasks).1 = mkResponse 201 (JsonTask t)
       ∧ t.(id) = env_uuid e
       ∧ (router (GET_one t.(id)) e' (router (POST b) e tasks).2).1
         = mkResponse 200 (JsonTask t).
Proof.
  intros Hs Hni. simpl. unfold validate. rewrite Hs. simpl.
  eexists. split; [done|]. split; [done|]. simpl.
  rewrite getTaskById_found, getById_app_r by done.
  rewrite getById_cons. simpl. by rewrite decide_True by done.
Qed.

Lemma post_then_get_witness :
  ∃ t, (router (POST (mkCreateData "Book flights" "Lisbon"))
          (mkEnv "f6" 6000 6001) sample).1
       = mkResponse 201 (JsonTask t)
       ∧ t.(id) = "f6"
       ∧ (router (GET_one t.(id)) (mkEnv "" 0 0)
            (router (POST (mkCreateData "Book flights" "Lisbon"))
               (mkEnv "f6" 6000 6001) sample).2).1
         = mkResponse 200 (JsonTask t).
Proof.
  apply (post_then_get (mkCreateData "Book flights" "Lisbon")
           (mkEnv "f6" 6000 6001) (mkEnv "" 0 0) sample);
    [reflexivity | by_evaluation].
Defined.

(** X18: the task a PUT answers with 200 is what GET of the identifier then
    answers. *)
Theorem put_then_get (i : string) (b : PartialTask) (e e' : Env)
    (tasks : list Task) (t : Task) :
  (router (PUT i b) e tasks).1 = mkResponse 200 (JsonTask t) →
  (router (GET_one i) e' (router (PUT i b) e tasks).2).1
  = mkResponse 200 (JsonTask t).
Proof.
  simpl. unfold validate. destruct (updateTaskSchema b) eqn:Hs; [|done].
  apply updateTaskSchema_keys in Hs as (Hid & _).
  rewrite updateTask_store. unfold updateTask.
  destruct ((update i b (env_now1 e) tasks).1) as [u|] eqn:Hu; [|done].
  intros [= ->]. rewrite getTaskById_found, getById_update by done.
  by rewrite Hu.
Qed.

Lemma put_then_get_witness :
  (router (GET_one "d4") (mkEnv "" 0 0)
     (router (PUT "d4" (mkPartial None None None (Some PENDING) None None))
        (mkEnv "" 8000 8000) sample).2).1
  = mkResponse 200 (JsonTask (mkTask "d4" "Project review" "slides" PENDING 4000 8000)).
Proof. by apply (put_then_get "d4" _ (mkEnv "" 8000 8000)). Defined.

(** X19: once DELETE has been called for an identifier, whatever it
    answered, GET and DELETE of that identifier answer 404, and so does a PUT
    whose body fits. *)
Theorem delete_then_gone (i : string) (e e' : Env) (tasks : list Task) :
  statusCode (router (GET_one i) e' (router (DELETE i) e tasks).2).1 = 404
  ∧ statusCode (router (DELETE i) e' (router (DELETE i) e tasks).2).1 = 404
  ∧ ∀ b, updateTaskSchema b = true →
         statusCode (router (PUT i b) e' (router (DELETE i) e tasks).2).1 = 404.
Proof.
  assert (Hni : i ∉ ids (router (DELETE i) e tasks).2).
  { simpl. rewrite deleteTask_store. apply remove_absent. }
  rewrite !router_statusCode. rewrite !decide_False by done.
  split; [done|]. split; [done|]. intros b Hb.
  by rewrite router_statusCode, Hb, decide_False by done.
Qed.

(** X20: for a status of the query that is one of the three (or absent), a
    title that is a string (or absent) and a page and a limit in which
    [parseInt] reads the integers [p] and [L], the controller answers 200
    with the listing [getAll] computes on these integers: total, page, limit
    and data.  The program computes the two indices of the page on doubles,
    which round beyond 2^53; no rounding changes the place an index has in
    an array, which has fewer than 2^32 elements.  A parameter that is
    absent or empty counts as page 1 and limit 10, the defaults of [getAll]
    itself. *)
Theorem getAllTasks_numbers (status_ : option TaskStatus)
    (title_ : option string) (tasks : list Task) :
  Z.of_nat (length tasks) < 2 ^ 32 →
  (∀ page limit (p L : Z),
     query_number page 1 = Int p → query_number limit 10 = Int L →
     getAllTasks (status_value status_) (title_value title_) page limit tasks
     = mkResponse 200
         (JsonListing (num_listing (getAll status_ title_ (Some p) (Some L) tasks))))
  ∧ (∀ page limit,
       page = None ∨ page = Some (QString "") →
       limit = None ∨ limit = Some (QString "") →
       getAllTasks (status_value status_) (title_value title_) page limit tasks
       = mkResponse 200
           (JsonListing (num_listing (getAll status_ title_ None None tasks)))).
Proof.
  intros Hlen.
  assert (Hnum : ∀ page limit (p L : Z),
     query_number page 1 = Int p → query_number limit 10 = Int L →
     getAllTasks (status_value status_) (title_value title_) page limit tasks
     = mkResponse 200
         (JsonListing (num_listing (getAll status_ title_ (Some p) (Some L) tasks)))).
  { intros page limit p L Hp HL. unfold getAllTasks.
    by rewrite Hp, HL, getAll_num_typed. }
  split; [exact Hnum|].
  intros page limit Hp HL. rewrite getAll_defaults.
  apply Hnum; [by destruct Hp as [-> | ->] | by destruct HL as [-> | ->]].
Qed.

Lemma getAllTasks_numbers_witness :
  getAllTasks None None (Some (QString " 2nd")) (Some (QArray [QString "0x2"; QString "7"]))
    sample
  = mkResponse 200
      (JsonListing (mkNumListing 5 (Int 2) (Int 2) [project; review])).
Proof.
  apply (proj1 (getAllTasks_numbers None None sample ltac:(by vm_compute))
           (Some (QString " 2nd"))
           (Some (QArray [QString "0x2"; QString "7"])) 2 2
           eq_refl eq_refl).
Defined.

(** A page beyond 2^53 is read as the double next to it, and the page it
    asks for is empty as it is on the integers. *)
Example getAllTasks_rounded_page :
  query_number (Some (QString "9007199254740993")) 1 = Int 9007199254740992
  ∧ getAllTasks None None (Some (QString "9007199254740993")) None sample
    = mkResponse 200
        (JsonListing (mkNumListing 5 (Int 9007199254740992) (Int 10) [])).
Proof. by vm_compute. Qed.

(** X21: with a title of the query that is a string (or absent), a page or
    limit parameter in which [parseInt] finds no number makes neither an
    error nor a default: the answer is 200 with no task in [data], and
    [total] is the number of the tasks the filters keep all the same. *)
Theorem getAllTasks_not_a_number (status_ : option QueryValue)
    (title_ : option string) page limit (tasks : list Task) :
  query_number page 1 = NaN ∨ query_number limit 10 = NaN →
  ∃ l, getAllTasks status_ (title_value title_) page limit tasks
       = mkResponse 200 (JsonListing l)
       ∧ n_data l = []
       ∧ n_total l
         = length (filter_title title_ (filter_status_value status_ tasks)).
Proof.
  intros Hnan. unfold getAllTasks, getAll_num.
  rewrite filter_title_value_typed. simpl.
  eexists. split; [reflexivity|]. split; [|done].
  by apply slice_num_NaN.
Qed.

Lemma getAllTasks_not_a_number_witness :
  ∃ l, getAllTasks None None (Some (QString "two")) (Some (QString "3")) sample
       = mkResponse 200 (JsonListing l)
       ∧ n_data l = [] ∧ n_total l = 5%nat.
Proof.
  apply (getAllTasks_not_a_number None None (Some (QString "two"))
           (Some (QString "3")) sample).
  left. by apply parseInt_no_digit.
Defined.

(** White space before the number is skipped, the no-break space (160)
    with the rest; an object for a page is not a number. *)
Example query_number_samples :
  query_number (Some (QString (String "160" " 2"))) 1 = Int 2
  ∧ query_number (Some QObject) 1 = NaN
  ∧ query_number (Some (QArray [QArray [QString "3"]; QString "4"])) 1 = Int 3
  ∧ query_number (Some (QString "")) 1 = Int 1.
Proof. by vm_compute. Qed.

(** The second and the fourth request are refused by the schemas, the fifth
    lists nothing and the last finds nothing to delete: one task is stored,
    with the title the first PUT gave it. *)
Example serve_sample_http :
  serve sample_http initial
  = [mkTask "a1" "Buy oat milk" "2% milk" PENDING 1000 3000]
  ∧ (λ re : HttpRequest * Env,
        statusCode (router re.1 re.2
                      [mkTask "a1" "Buy oat milk" "2% milk" PENDING 1000 3000]).1)
      <$> drop 3 sample_http
    = [400; 200; 404].
Proof. by vm_compute. Qed.

(** X22: the listings by status share out the listing without a status:
    for any title asked for, the totals for PENDING, IN_PROGRESS and
    COMPLETED add up to the total with no status given. *)
Theorem getAll_status_totals title_ page_ limit_ (tasks : list Task) :
  (total (getAll (Some PENDING) title_ page_ limit_ tasks)
   + total (getAll (Some IN_PROGRESS) title_ page_ limit_ tasks)
   + total (getAll (Some COMPLETED) title_ page_ limit_ tasks))%nat
  = total (getAll None title_ page_ limit_ tasks).
Proof.
  unfold getAll; simpl.
  rewrite !filter_title_matches.
  induction tasks as [|x tasks IH]; [done|].
  rewrite !filter_cons.
  destruct (status x) eqn:Hs; simpl;
    repeat (case_decide; try done; simplify_eq/=);
    rewrite ?filter_cons; repeat case_decide; simpl; try done; lia.
Qed.

(** ** Numerals in the query *)

(** The character of a decimal digit, and the string of a list of digits. *)
Definition digit_char (d : nat) : ascii := ascii_of_nat (48 + d).
#[global] Arguments digit_char : simpl never.

Fixpoint numeral (ds : list nat) : string :=
  match ds with
  | [] => EmptyString
  | d :: ds' => String (digit_char d) (numeral ds')
  end.

(** The number a list of decimal digits stands for. *)
Definition numeral_value (ds : list nat) : Z :=
  foldl (λ acc d, acc * 10 + Z.of_nat d) 0 ds.

(** [s] does not go on with a decimal digit. *)
Definition no_digit_ahead (s : string) : Prop :=
  match s with
  | EmptyString => True
  | String c _ => digit_value 10 c = None
  end.

(** [s] does not start with [x] or [X]. *)
Definition no_x_ahead (s : string) : Prop :=
  match s with
  | EmptyString => True
  | String c _ => c ≠ "x"%char ∧ c ≠ "X"%char
  end.

Lemma nat_of_digit_char (d : nat) :
  (d < 10)%nat → nat_of_ascii (digit_char d) = (48 + d)%nat.
Proof. intros Hd. unfold digit_char. apply nat_ascii_embedding. lia. Qed.

Lemma digit_value_digit_char (d : nat) :
  (d < 10)%nat → digit_value 10 (digit_char d) = Some (Z.of_nat d).
Proof.
  intros Hd. unfold digit_value. rewrite nat_of_digit_char by done.
  rewrite bool_decide_eq_true_2 by lia.
  destruct (Z.ltb_spec (Z.of_nat (48 + d) - 48) 10); [|lia].
  f_equal. lia.
Qed.

Lemma digit_char_plain (d : nat) :
  (d < 10)%nat →
  is_white_space (digit_char d) = false
  ∧ digit_char d ≠ "-"%char ∧ digit_char d ≠ "+"%char
  ∧ digit_char d ≠ "x"%char ∧ digit_char d ≠ "X"%char
  ∧ (digit_char d = "0"%char → d = 0%nat).
Proof.
  intros Hd. unfold is_white_space.
  assert (Hc : ∀ c, digit_char d = c → nat_of_ascii c = (48 + d)%nat).
  { intros c <-. by apply nat_of_digit_char. }
  rewrite nat_of_digit_char by done.
  split; [|repeat split].
  - rewrite !orb_false_iff. repeat split; apply bool_decide_eq_false; lia.
  - intros H%Hc. vm_compute in H. lia.
  - intros H%Hc. vm_compute in H. lia.
  - intros H%Hc. vm_compute in H. lia.
  - intros H%Hc. vm_compute in H. lia.
  - intros H%Hc. vm_compute in H. lia.
Qed.

Lemma append_cons (c : ascii) (s t : string) :
  String c s +:+ t = String c (s +:+ t).
Proof. reflexivity. Qed.

Lemma append_empty_l (t : string) : "" +:+ t = t.
Proof. reflexivity. Qed.

Lemma digits_numeral (ds : list nat) (rest : string) (acc : Z) :
  Forall (λ d, (d < 10)%nat) ds → no_digit_ahead rest →
  digits 10 (numeral ds +:+ rest) (Some acc)
  = Some (foldl (λ a d, a * 10 + Z.of_nat d) acc ds).
Proof.
  intros Hds Hrest. revert acc.
  induction Hds as [|d ds Hd _ IH]; intros acc.
  - destruct rest as [|c rest]; [done|].
    cbn [numeral no_digit_ahead foldl] in *. rewrite append_empty_l.
    cbn [digits]. by rewrite Hrest.
  - cbn [numeral foldl]. rewrite append_cons. cbn [digits].
    rewrite digit_value_digit_char by done. cbn [default]. apply IH.
Qed.

Lemma numeral_append_empty (ds : list nat) : numeral ds +:+ "" = numeral ds.
Proof.
  induction ds as [|d ds IH]; [done|].
  cbn [numeral]. by rewrite append_cons, IH.
Qed.

Lemma parseInt_numeral (ds : list nat) (rest : string) :
  Forall (λ d, (d < 10)%nat) ds → ds ≠ [] → no_digit_ahead rest →
  (ds = [0%nat] → no_x_ahead rest) →
  parseInt (numeral ds +:+ rest) = of_integer (numeral_value ds).
Proof.
  intros Hds Hne Hrest Hx. destruct ds as [|d ds]; [done|].
  inversion_clear Hds as [|?? Hd Hds'].
  destruct (digit_char_plain d Hd) as (Hw & Hm & Hp & _ & _ & H0).
  assert (Hrun : digits 10 (String (digit_char d) (numeral ds +:+ rest)) None
                 = Some (numeral_value (d :: ds))).
  { cbn [digits]. rewrite digit_value_digit_char by done.
    cbn [default]. by rewrite digits_numeral. }
  unfold parseInt. cbn [numeral]. rewrite append_cons. cbn [trim_start].
  rewrite Hw.
  rewrite !decide_False by done.
  destruct (numeral ds +:+ rest) as [|x r] eqn:Htail.
  - rewrite Hrun. f_equal. lia.
  - rewrite decide_False; [rewrite Hrun; f_equal; lia|].
    intros [Hz Hxx]. specialize (H0 Hz). subst d.
    destruct ds as [|d' ds].
    + cbn [numeral] in Htail. rewrite append_empty_l in Htail. subst rest.
      destruct (Hx eq_refl) as [??]. tauto.
    + inversion_clear Hds' as [|?? Hd' _].
      destruct (digit_char_plain d' Hd') as (_ & _ & _ & Hx1 & Hx2 & _).
      cbn [numeral] in Htail. rewrite append_cons in Htail.
      injection Htail as <- _. tauto.
Qed.

(** X23: what follows a decimal numeral in the page or the limit parameter
    is ignored: [?page=2abc] is answered as [?page=2]. (What follows is not
    a digit, and is not [x] after a lone [0], which would make it a
    hexadecimal numeral.) *)
Theorem getAllTasks_numeral_prefix status_ title_ (ds : list nat)
    (rest : string) (other : option QueryValue) (tasks : list Task) :
  Forall (λ d, (d < 10)%nat) ds → ds ≠ [] → no_digit_ahead rest →
  (ds = [0%nat] → no_x_ahead rest) →
  getAllTasks status_ title_ (Some (QString (numeral ds +:+ rest))) other tasks
  = getAllTasks status_ title_ (Some (QString (numeral ds))) other tasks
  ∧ getAllTasks status_ title_ other (Some (QString (numeral ds +:+ rest))) tasks
    = getAllTasks status_ title_ other (Some (QString (numeral ds))) tasks.
Proof.
  intros Hds Hne Hrest Hx.
  assert (Hq : ∀ dflt, query_number (Some (QString (numeral ds +:+ rest))) dflt
                       = query_number (Some (QString (numeral ds))) dflt).
  { intros dflt. unfold query_number. cbn [truthy_value ToString].
    assert (JS.truthy (numeral ds +:+ rest) = true) as ->
      by (by destruct ds).
    assert (JS.truthy (numeral ds) = true) as -> by (by destruct ds).
    rewrite parseInt_numeral by done.
    rewrite <- (numeral_append_empty ds) at 1.
    by rewrite parseInt_numeral. }
  unfold getAllTasks. by rewrite !Hq.
Qed.

Lemma getAllTasks_numeral_prefix_witness :
  getAllTasks None None (Some (QString "2abc")) None sample
  = getAllTasks None None (Some (QString "2")) None sample.
Proof.
  apply (getAllTasks_numeral_prefix None None [2%nat] "abc" None sample).
  - repeat constructor.
  - done.
  - reflexivity.
  - discriminate.
Defined.
